(** * Dealer scraper: extraction, normalisation, validation and orchestration

    A shallow embedding of the dealer scraper (package [src.scraper]) and the
    properties of its crawl pipeline.

    Conventions.
    - A Python or JavaScript string is a [string]: a sequence of code
      points below 256 (the Latin-1 range), each held in one [ascii].  The
      character classes and the case mapping of [Text] are those of Python 3
      and of JavaScript on this range; a string with a code point from 256
      on has no counterpart here.
    - A field typed [str] that is passed as a keyword argument or read with
      [dict.get(key, '')] is a [string]; the empty Python string is
      [EmptyString].
    - Collaborators outside the package (the browser page, the HTTP client,
      the file system, the clock, the log) are inputs of the functions that
      call them; logging has no effect on the results and is left out.
    - A pause ([asyncio.sleep], [wait_for_timeout], [_natural_delay]) only
      lets time pass and is left out; the waits of the retry decorator are
      kept, as the list of waits of a decorated call. *)

From Stdlib Require Import List String Ascii Bool Arith Lia ZArith.
From Stdlib Require Import Sorting.Sorted Sorting.Permutation.
From Stdlib Require Import Structures.Orders Sorting.Mergesort.
From Stdlib Require Structures.OrdersEx.
Import ListNotations.

Local Open Scope string_scope.
Local Open Scope list_scope.

(** ** Text primitives of the two host languages *)

Module Text.

Definition code (c : ascii) : nat := nat_of_ascii c.

Definition between (lo hi : nat) (c : ascii) : bool :=
  Nat.leb lo (code c) && Nat.leb (code c) hi.

(** [\d] of Python's [re] on [str]: the decimal digits, which below 256
    are [0] to [9] only. *)
Definition is_digit (c : ascii) : bool := between 48 57 c.

(** [str.isdigit]: the decimal digits and the superscripts two, three and
    one (codes 178, 179 and 185). *)
Definition str_isdigit (c : ascii) : bool :=
  is_digit c || between 178 179 c || Nat.eqb (code c) 185.

(** The letters [A] to [Z]. *)
Definition is_upper (c : ascii) : bool := between 65 90 c.
Definition is_lower (c : ascii) : bool := between 97 122 c.
Definition is_alpha (c : ascii) : bool := is_upper c || is_lower c.

(** The upper-case letters from 128 on: codes 192 to 222 but the
    multiplication sign (215). *)
Definition is_upper_latin (c : ascii) : bool :=
  between 192 214 c || between 216 222 c.

(** The characters from 128 on that [str.isalnum] accepts: the two ordinal
    indicators (170, 186), the micro sign (181), the superscripts and
    fractions (178, 179, 185, 188 to 190) and the letters (192 to 255 but
    the multiplication and the division sign). *)
Definition is_alnum_latin (c : ascii) : bool :=
  Nat.eqb (code c) 170 || between 178 179 c || Nat.eqb (code c) 181 ||
  between 185 186 c || between 188 190 c || between 192 214 c ||
  between 216 246 c || between 248 255 c.

(** [\w] of Python's [re] on [str]: what [str.isalnum] accepts, and the
    underscore. *)
Definition is_word (c : ascii) : bool :=
  is_alpha c || is_digit c || Nat.eqb (code c) 95 || is_alnum_latin c.

(** White space removed by Python's [str.strip()]: what [str.isspace]
    accepts, the next-line control (133) and the no-break space (160)
    included. *)
Definition py_space (c : ascii) : bool :=
  between 9 13 c || between 28 32 c || Nat.eqb (code c) 133 ||
  Nat.eqb (code c) 160.

(** White space removed by JavaScript's [String.prototype.trim]: the white
    space and line terminators of the language, the no-break space (160)
    included. *)
Definition js_space (c : ascii) : bool :=
  between 9 13 c || Nat.eqb (code c) 32 || Nat.eqb (code c) 160.

(** [str.lower()] / [toLowerCase()] on one character. *)
Definition lower_char (c : ascii) : ascii :=
  if is_upper c || is_upper_latin c then ascii_of_nat (code c + 32) else c.

Fixpoint lower (s : string) : string :=
  match s with
  | EmptyString => EmptyString
  | String c r => String (lower_char c) (lower r)
  end.

Definition is_empty (s : string) : bool :=
  match s with EmptyString => true | String _ _ => false end.

Section Strip.
Variable space : ascii -> bool.

Fixpoint lstrip (s : string) : string :=
  match s with
  | EmptyString => EmptyString
  | String c r => if space c then lstrip r else s
  end.

Fixpoint rstrip (s : string) : string :=
  match s with
  | EmptyString => EmptyString
  | String c r =>
      let r' := rstrip r in
      if space c && is_empty r' then EmptyString else String c r'
  end.

Definition strip_with (s : string) : string := rstrip (lstrip s).

End Strip.

(** Python [s.strip()]. *)
Definition strip : string -> string := strip_with py_space.
(** JavaScript [s.trim()]. *)
Definition trim : string -> string := strip_with js_space.

Fixpoint filter_chars (keep : ascii -> bool) (s : string) : string :=
  match s with
  | EmptyString => EmptyString
  | String c r =>
      if keep c then String c (filter_chars keep r) else filter_chars keep r
  end.

Fixpoint map_chars (f : ascii -> ascii) (s : string) : string :=
  match s with
  | EmptyString => EmptyString
  | String c r => String (f c) (map_chars f r)
  end.

Fixpoint all_chars (p : ascii -> bool) (s : string) : bool :=
  match s with
  | EmptyString => true
  | String c r => p c && all_chars p r
  end.

(** Python [c in s] for a character. *)
Fixpoint has_char (c : ascii) (s : string) : bool :=
  match s with
  | EmptyString => false
  | String d r => Ascii.eqb c d || has_char c r
  end.

(** Python [needle in hay] for strings. *)
Fixpoint contains (needle hay : string) : bool :=
  String.prefix needle hay ||
  match hay with
  | EmptyString => false
  | String _ r => contains needle r
  end.

(** Python [x in xs] for a list of strings. *)
Definition mem (x : string) (xs : list string) : bool :=
  existsb (String.eqb x) xs.

(** Python [s.split(sep)[0]] for a one-character separator. *)
Fixpoint before_char (sep : ascii) (s : string) : string :=
  match s with
  | EmptyString => EmptyString
  | String c r =>
      if Ascii.eqb c sep then EmptyString else String c (before_char sep r)
  end.

(** Python [s.split(sep)[-1]] for a one-character separator: the text after
    the last separator, the whole string when there is none. *)
Fixpoint after_last_char (sep : ascii) (s : string) : string :=
  match s with
  | EmptyString => EmptyString
  | String c r =>
      if has_char sep r then after_last_char sep r
      else if Ascii.eqb c sep then r else s
  end.

(** Python [s.replace(a, b)] for characters [a], [b]. *)
Definition replace_char (a b : ascii) (s : string) : string :=
  map_chars (fun c => if Ascii.eqb c a then b else c) s.

(** Python [s.replace(a, '')] for a character [a]. *)
Definition delete_char (a : ascii) (s : string) : string :=
  filter_chars (fun c => negb (Ascii.eqb c a)) s.

Lemma is_empty_true (s : string) : is_empty s = true <-> s = EmptyString.
Proof. destruct s; simpl; split; congruence. Qed.

Lemma is_empty_false (s : string) : is_empty s = false <-> s <> EmptyString.
Proof. destruct s; simpl; split; congruence. Qed.

End Text.

(** ** [models/dealer.py] *)

Module Dealer.

Record DealerData := mkDealerData {
  vehicle_type : string;
  brand : string;
  location : string;
  dealer_name : string;
  address : string;
  phone : string;
  email : string;
  city : string;
  state : string;
  pincode : string;
  dealer_code : string;
  scraped_at : string;
  source_url : string
}.

(** The body of the loop of [_clean_fields] for one field value. *)
Definition clean_field (value : string) : string :=
  if Text.mem value ["N/A"; "NA"; "n/a"] then EmptyString
  else Text.strip value.

(** [_clean_fields]: the seven listed fields are cleaned, the others kept. *)
Definition _clean_fields (d : DealerData) : DealerData :=
  {| vehicle_type := vehicle_type d;
     brand := brand d;
     location := location d;
     dealer_name := clean_field (dealer_name d);
     address := clean_field (address d);
     phone := clean_field (phone d);
     email := clean_field (email d);
     city := clean_field (city d);
     state := clean_field (state d);
     pincode := clean_field (pincode d);
     dealer_code := dealer_code d;
     scraped_at := scraped_at d;
     source_url := source_url d |}.

(** [__post_init__]; [now] is [datetime.now().strftime(...)] at the call. *)
Definition __post_init__ (now : string) (d : DealerData) : DealerData :=
  let d1 :=
    {| vehicle_type := vehicle_type d;
       brand := brand d;
       location := location d;
       dealer_name := dealer_name d;
       address := address d;
       phone := phone d;
       email := email d;
       city := city d;
       state := state d;
       pincode := pincode d;
       dealer_code := dealer_code d;
       scraped_at :=
         if Text.is_empty (scraped_at d) then now else scraped_at d;
       source_url := source_url d |} in
  _clean_fields d1.

(** Python truthiness of a string: [not s] is [is_empty s]. *)
Definition append_if (b : bool) (msg : string) (errors : list string)
  : list string :=
  if b then errors ++ [msg] else errors.

Definition is_valid (d : DealerData) : bool * list string :=
  let errors := [] in
  let errors :=
    append_if (Text.is_empty (dealer_name d) || String.eqb (dealer_name d) EmptyString)
      "Missing dealer name" errors in
  let errors :=
    append_if (Text.is_empty (address d) && Text.is_empty (city d)
               && Text.is_empty (location d))
      "Missing address, city, and location" errors in
  let errors :=
    append_if (Nat.ltb (String.length (dealer_name d)) 2)
      ("Dealer name too short: '" ++ dealer_name d ++ "'") errors in
  (Nat.eqb (List.length errors) 0, errors).

Lemma append_if_nonempty b msg errors :
  errors <> [] -> append_if b msg errors <> [].
Proof.
  intros H; unfold append_if; destruct b; auto.
  destruct errors; simpl; congruence.
Qed.

Lemma append_if_true_nonempty msg errors : append_if true msg errors <> [].
Proof. unfold append_if; destruct errors; simpl; congruence. Qed.

(** The answer of [is_valid] in terms of the fields. *)
Lemma is_valid_true (d : DealerData) :
  fst (is_valid d) = true <->
  (dealer_name d <> EmptyString /\ 2 <= String.length (dealer_name d)) /\
  (address d <> EmptyString \/ city d <> EmptyString \/
   location d <> EmptyString).
Proof.
  unfold is_valid.
  destruct d as [vt br loc name addr ph em ct st pin dc sc su]; simpl.
  assert (Hne : forall c s, String c s <> EmptyString) by (intros; discriminate).
  destruct name as [|c0 [|c1 name]]; simpl.
  - split; [ destruct addr, ct, loc; discriminate | ].
    intros [[Hn _] _]; exfalso; apply Hn; reflexivity.
  - split; [ destruct addr, ct, loc; discriminate | ].
    intros [[_ Hl] _]; simpl in Hl; lia.
  - split.
    + destruct addr, ct, loc; simpl; intros H; try discriminate H;
        (split; [ split; [ apply Hne | simpl; lia ] | ]); auto.
    + intros [_ Hor].
      destruct addr, ct, loc; simpl; try reflexivity.
      destruct Hor as [H | [H | H]]; exfalso; apply H; reflexivity.
Qed.

(** The reasons that come with the answer. *)
Lemma is_valid_reasons (d : DealerData) :
  fst (is_valid d) = true /\ snd (is_valid d) = [] \/
  fst (is_valid d) = false /\ snd (is_valid d) <> [] /\
  Forall (fun reason => reason <> EmptyString) (snd (is_valid d)).
Proof.
  unfold is_valid.
  destruct d as [vt br loc name addr ph em ct st pin dc sc su]; simpl.
  destruct name as [|c0 [|c1 name]], addr, ct, loc; simpl;
    first [ left; split; reflexivity
          | right; split; [ reflexivity | ];
            split; [ discriminate | repeat constructor; discriminate ] ].
Qed.

(** C1.  [is_valid] answers true exactly when the dealer name is non-empty
    with at least two characters and one of address, city, location is
    non-empty; a true answer comes with no reason and a false answer with
    at least one reason, none of which is the empty string. *)
Theorem is_valid_iff (d : DealerData) :
  (fst (is_valid d) = true <->
     (dealer_name d <> EmptyString /\ 2 <= String.length (dealer_name d)) /\
     (address d <> EmptyString \/ city d <> EmptyString \/
      location d <> EmptyString)) /\
  (fst (is_valid d) = true /\ snd (is_valid d) = [] \/
   fst (is_valid d) = false /\ snd (is_valid d) <> [] /\
   Forall (fun reason => reason <> EmptyString) (snd (is_valid d))).
Proof. split; [apply is_valid_true | apply is_valid_reasons]. Qed.

(** The dataclass constructor with its defaults: the generated [__init__]
    stores the arguments and runs [__post_init__]. *)
Definition new (now vehicle_type brand location dealer_name address phone
                email city state pincode source_url : string) : DealerData :=
  __post_init__ now
    (mkDealerData vehicle_type brand location dealer_name address phone
       email city state pincode EmptyString EmptyString source_url).

(** [DealerData(vehicle_type="cars", brand="bmw", location="Pune",
    dealer_name="A", address="12 MG Road")] *)
Definition single_letter_dealer : DealerData :=
  new "2024-01-01 00:00:00" "cars" "bmw" "Pune" "A" "12 MG Road"
    EmptyString EmptyString EmptyString EmptyString EmptyString EmptyString.

(** C6, as stated, fails: a record whose name is the one letter A and whose
    address is present has a non-empty name and a non-empty address, and is
    rejected with the reason that the name is too short. *)
Lemma single_letter_name_rejected :
  dealer_name single_letter_dealer <> EmptyString /\
  address single_letter_dealer <> EmptyString /\
  is_valid single_letter_dealer = (false, ["Dealer name too short: 'A'"]).
Proof. repeat split; discriminate. Qed.

(** C6, amended.  A record with an empty name is rejected whatever its other
    fields are, and a record whose name has at least two characters and whose
    address is non-empty is accepted. *)
Theorem is_valid_name_and_address (d : DealerData) :
  (dealer_name d = EmptyString -> fst (is_valid d) = false) /\
  (2 <= String.length (dealer_name d) -> address d <> EmptyString ->
   fst (is_valid d) = true).
Proof.
  split.
  - intros Hn.
    destruct (fst (is_valid d)) eqn:E; [|reflexivity].
    apply is_valid_true in E. destruct E as [[E _] _].
    contradiction.
  - intros Hl Ha. apply is_valid_true. split.
    + split; [|exact Hl]. intros E; rewrite E in Hl; simpl in Hl; lia.
    + left; exact Ha.
Qed.

(** [DealerData(vehicle_type="cars", brand="bmw", location="", dealer_name="",
    address="12 MG Road")] and the same with the name [AB Motors]. *)
Lemma is_valid_name_and_address_witness :
  fst (is_valid (new "2024-01-01 00:00:00" "cars" "bmw" EmptyString
                   EmptyString "12 MG Road" EmptyString EmptyString
                   EmptyString EmptyString EmptyString EmptyString)) = false /\
  fst (is_valid (new "2024-01-01 00:00:00" "cars" "bmw" EmptyString
                   "AB Motors" "12 MG Road" EmptyString EmptyString
                   EmptyString EmptyString EmptyString EmptyString)) = true.
Proof.
  split.
  - apply (proj1 (is_valid_name_and_address _)). reflexivity.
  - apply (proj2 (is_valid_name_and_address _)).
    + vm_compute. lia.
    + discriminate.
Defined.

End Dealer.

(** ** [extractors/dealer_extractor.py]: field cleaning *)

Module Cleaning.

Definition newline : ascii := ascii_of_nat 10.

(** [_clean_name]: [name.strip().split('\n')[0] if name else ''] *)
Definition _clean_name (name : string) : string :=
  if Text.is_empty name then EmptyString
  else Text.before_char newline (Text.strip name).

(** The character class [\d+\-] of the phone pattern. *)
Definition phone_char (c : ascii) : bool :=
  Text.is_digit c || Ascii.eqb c "+" || Ascii.eqb c "-".

(** [re.sub(cls, '', s)] for a one-character class [cls]: every character
    matching the class is replaced by nothing. *)
Fixpoint re_sub_class_empty (cls : ascii -> bool) (s : string) : string :=
  match s with
  | EmptyString => EmptyString
  | String c r =>
      if cls c then re_sub_class_empty cls r
      else String c (re_sub_class_empty cls r)
  end.

(** [_clean_phone]: the class is the negated one, [[^\d+\-]]. *)
Definition _clean_phone (phone : string) : string :=
  if Text.is_empty phone then EmptyString
  else re_sub_class_empty (fun c => negb (phone_char c)) phone.

(** [_clean_email] *)
Definition _clean_email (email : string) : string :=
  if Text.is_empty email then EmptyString
  else
    let email := Text.strip email in
    if Text.has_char "@" email
       && Text.has_char "." (Text.after_last_char "@" email)
    then email else EmptyString.

Lemma re_sub_is_filter cls s :
  re_sub_class_empty (fun c => negb (cls c)) s = Text.filter_chars cls s.
Proof.
  induction s as [|c r IH]; simpl; [reflexivity|].
  rewrite IH; destruct (cls c); reflexivity.
Qed.

Lemma filter_chars_all keep s :
  Text.all_chars keep (Text.filter_chars keep s) = true.
Proof.
  induction s as [|c r IH]; simpl; [reflexivity|].
  destruct (keep c) eqn:E; simpl; [rewrite E|]; exact IH.
Qed.

Lemma filter_chars_fixed keep s :
  Text.all_chars keep s = true -> Text.filter_chars keep s = s.
Proof.
  induction s as [|c r IH]; simpl; [reflexivity|].
  intros H; apply andb_true_iff in H as [Hc Hr].
  rewrite Hc, IH by exact Hr; reflexivity.
Qed.

Lemma clean_phone_filter x :
  _clean_phone x = Text.filter_chars phone_char x.
Proof.
  unfold _clean_phone; destruct x as [|c r]; [reflexivity|].
  simpl Text.is_empty; cbv iota. apply re_sub_is_filter.
Qed.


End Cleaning.

(** ** [extractors/dealer_extractor.py]: [_parse_location] *)

Module Location.

Definition states : list string :=
  [ "Andhra Pradesh"; "Arunachal Pradesh"; "Assam"; "Bihar"; "Chhattisgarh";
    "Goa"; "Gujarat"; "Haryana"; "Himachal Pradesh"; "Jharkhand";
    "Karnataka"; "Kerala"; "Madhya Pradesh"; "Maharashtra"; "Manipur";
    "Meghalaya"; "Mizoram"; "Nagaland"; "Odisha"; "Punjab";
    "Rajasthan"; "Sikkim"; "Tamil Nadu"; "Telangana"; "Tripura";
    "Uttar Pradesh"; "Uttarakhand"; "West Bengal"; "Delhi";
    "Jammu and Kashmir"; "Ladakh"; "Puducherry" ].

Definition cities : list string :=
  [ "Hyderabad"; "Bangalore"; "Mumbai"; "Delhi"; "Chennai"; "Pune";
    "Ahmedabad"; "Jaipur"; "Lucknow"; "Indore"; "Chandigarh"; "Kochi";
    "Kolkata"; "Surat"; "Nagpur"; "Vadodara"; "Goa"; "Agra";
    "Visakhapatnam"; "Patna"; "Bhopal"; "Ludhiana"; "Kanpur"; "Srinagar";
    "Varanasi"; "Meerut"; "Amritsar"; "Guwahati"; "Jamshedpur"; "Noida";
    "Gurgaon"; "Faridabad"; "Thane"; "Aurangabad"; "Ranchi"; "Ghaziabad";
    "Coimbatore"; "Mysore"; "Trivandrum"; "Kota"; "Udaipur" ].

(** The loop [for s in names: if s in address: result = s; break], with
    [result] initially the empty string. *)
Fixpoint first_contained (names : list string) (address : string) : string :=
  match names with
  | [] => EmptyString
  | s :: rest =>
      if Text.contains s address then s else first_contained rest address
  end.

Definition head (s : string) : option ascii :=
  match s with EmptyString => None | String c _ => Some c end.

Fixpoint last_char (s : string) : option ascii :=
  match s with
  | EmptyString => None
  | String c r =>
      match last_char r with Some d => Some d | None => Some c end
  end.

(** Is the neighbour of a position a word character?  The two ends of the
    subject count as non-word. *)
Definition word_at (c : option ascii) : bool :=
  match c with Some c => Text.is_word c | None => false end.

(** [\b]: exactly one of the two neighbours of the position is a word
    character. *)
Definition word_boundary (prev next : option ascii) : bool :=
  xorb (word_at prev) (word_at next).

(** [\d{n}] at the head of [s]: the digits matched and the remainder. *)
Fixpoint take_digits (n : nat) (s : string) : option (string * string) :=
  match n with
  | 0 => Some (EmptyString, s)
  | S n' =>
      match s with
      | EmptyString => None
      | String c r =>
          if Text.is_digit c then
            match take_digits n' r with
            | Some (d, rest) => Some (String c d, rest)
            | None => None
            end
          else None
      end
  end.

(** The pattern [\b(\d{6})\b] tried at one position; [prev] is the character
    before the position.  The result is group 1. *)
Definition match_pincode_here (prev : option ascii) (s : string)
  : option string :=
  if word_boundary prev (head s) then
    match take_digits 6 s with
    | Some (digits, rest) =>
        if word_boundary (last_char digits) (head rest) then Some digits
        else None
    | None => None
    end
  else None.

(** [re.search]: the pattern is tried at every position from the left. *)
Fixpoint search_pincode (prev : option ascii) (s : string) : option string :=
  match match_pincode_here prev s with
  | Some d => Some d
  | None =>
      match s with
      | EmptyString => None
      | String c r => search_pincode (Some c) r
      end
  end.

Definition re_search_pincode (address : string) : option string :=
  search_pincode None address.

(** [_parse_location] returns [(city, state, pincode)]. *)
Definition _parse_location (address : string) : string * string * string :=
  if Text.is_empty address then (EmptyString, EmptyString, EmptyString)
  else
    let pincode :=
      match re_search_pincode address with
      | Some group1 => group1
      | None => EmptyString
      end in
    let state := first_contained states address in
    let city := first_contained cities address in
    (city, state, pincode).

(** *** The words of the specification *)

(** [needle] occurs in [hay] as a contiguous, exact substring. *)
Definition substring_of (needle hay : string) : Prop :=
  exists pre post : string, hay = (pre ++ needle ++ post)%string.

(** [r] is the first entry of [names] that occurs in [a]; the empty string
    when no entry occurs. *)
Definition first_listed (names : list string) (a r : string) : Prop :=
  (exists before after,
      names = before ++ r :: after /\ substring_of r a /\
      forall x, In x before -> ~ substring_of x a) \/
  (r = EmptyString /\ forall x, In x names -> ~ substring_of x a).

(** [p] occurs in [a] after [pre] as six digits with no word character
    (letter, digit, underscore) on either side. *)
Definition pin_occurrence (a pre p post : string) : Prop :=
  a = (pre ++ p ++ post)%string /\ String.length p = 6 /\
  Text.all_chars Text.is_digit p = true /\
  word_at (last_char pre) = false /\ word_at (head post) = false.

(** [p] is the leftmost such occurrence; the empty string when there is
    none. *)
Definition first_pin (a p : string) : Prop :=
  (exists pre post,
      pin_occurrence a pre p post /\
      forall pre' p' post',
        pin_occurrence a pre' p' post' ->
        String.length pre <= String.length pre') \/
  (p = EmptyString /\ forall pre' p' post', ~ pin_occurrence a pre' p' post').

(** *** Substring tests *)

Lemma prefix_iff (n h : string) :
  String.prefix n h = true <-> exists post : string, h = (n ++ post)%string.
Proof.
  revert h; induction n as [|c n IH]; intros h; simpl.
  - destruct h; split; intros; eauto.
  - destruct h as [|d h]; simpl.
    + split; [discriminate | intros [post H]; discriminate].
    + destruct (ascii_dec c d) as [->|Hne].
      * rewrite IH; split; intros [post H]; exists post; congruence.
      * split; [discriminate | intros [post H]; congruence].
Qed.

Lemma contains_iff (n h : string) :
  Text.contains n h = true <-> substring_of n h.
Proof.
  unfold substring_of; induction h as [|c r IH].
  - change (Text.contains n EmptyString)
      with (String.prefix n EmptyString || false).
    rewrite orb_false_r, prefix_iff; split.
    + intros [post H]; exists EmptyString, post; exact H.
    + intros [[|] [post H]]; [exists post; exact H | discriminate].
  - change (Text.contains n (String c r))
      with (String.prefix n (String c r) || Text.contains n r).
    rewrite orb_true_iff, prefix_iff, IH; split.
    + intros [[post H] | [pre [post H]]].
      * exists EmptyString, post; exact H.
      * exists (String c pre), post; simpl; congruence.
    + intros [[|c' pre] [post H]]; simpl in H.
      * left; exists post; exact H.
      * right; exists pre, post; congruence.
Qed.

Lemma first_contained_spec (names : list string) (a : string) :
  first_listed names a (first_contained names a).
Proof.
  unfold first_listed; induction names as [|s rest IH]; simpl.
  - right; split; [reflexivity | intros x []].
  - destruct (Text.contains s a) eqn:E.
    + left; exists [], rest; split; [reflexivity|].
      split; [apply contains_iff, E | intros x []].
    + assert (Hs : ~ substring_of s a).
      { intros H; apply contains_iff in H; congruence. }
      destruct IH as [[before [after [Hn [Hin Hbefore]]]] | [He Hnone]].
      * left; exists (s :: before), after; split; [simpl; congruence|].
        split; [exact Hin|].
        intros x [<- | Hx]; [exact Hs | apply Hbefore, Hx].
      * right; split; [exact He|].
        intros x [<- | Hx]; [exact Hs | apply Hnone, Hx].
Qed.

(** *** The pincode pattern *)

Lemma digit_is_word c : Text.is_digit c = true -> Text.is_word c = true.
Proof.
  unfold Text.is_word; intros ->.
  rewrite orb_true_r; reflexivity.
Qed.

Lemma take_digits_iff (n : nat) (s d rest : string) :
  take_digits n s = Some (d, rest) <->
  s = (d ++ rest)%string /\ String.length d = n /\
  Text.all_chars Text.is_digit d = true.
Proof.
  revert s d rest; induction n as [|n IH]; intros s d rest; simpl.
  - split.
    + intros H; injection H as <- <-; auto.
    + intros [-> [Hl _]]; destruct d; [reflexivity | discriminate].
  - destruct s as [|c r].
    + split; [discriminate|].
      intros [H [Hl _]]; destruct d; discriminate.
    + destruct (Text.is_digit c) eqn:Ec.
      * destruct (take_digits n r) as [[d0 rest0]|] eqn:Er.
        -- apply IH in Er as [-> [Hl0 Hd0]]; split.
           ++ intros H; injection H as <- <-; simpl.
              rewrite Ec, Hd0; auto.
           ++ intros [H [Hl Hd]]; destruct d as [|c' d']; [discriminate|].
              simpl in *; injection H as <- H; injection Hl as Hl.
              apply andb_true_iff in Hd as [_ Hd].
              assert (E : take_digits n (d0 ++ rest0) = Some (d', rest))
                by (apply IH; auto).
              assert (E0 : take_digits n (d0 ++ rest0) = Some (d0, rest0))
                by (apply IH; auto).
              congruence.
        -- split; [discriminate|].
           intros [H [Hl Hd]]; destruct d as [|c' d']; [discriminate|].
           simpl in *; injection H as <- H; injection Hl as Hl.
           apply andb_true_iff in Hd as [_ Hd].
           assert (E : take_digits n r = Some (d', rest))
             by (apply IH; auto).
           congruence.
      * split; [discriminate|].
        intros [H [Hl Hd]]; destruct d as [|c' d']; [discriminate|].
        simpl in *; injection H as <- H.
        apply andb_true_iff in Hd as [Hd _]; congruence.
Qed.

Lemma last_char_digits (d : string) :
  Text.all_chars Text.is_digit d = true -> d <> EmptyString ->
  word_at (last_char d) = true.
Proof.
  induction d as [|c r IH]; [congruence|]; simpl.
  intros H _; apply andb_true_iff in H as [Hc Hr].
  destruct r as [|c' r'].
  - simpl; apply digit_is_word, Hc.
  - specialize (IH Hr ltac:(discriminate)).
    destruct (last_char (String c' r')); [exact IH | discriminate].
Qed.

Lemma match_pincode_here_iff (prev : option ascii) (s p : string) :
  match_pincode_here prev s = Some p <->
  exists post : string,
    s = (p ++ post)%string /\ String.length p = 6 /\
    Text.all_chars Text.is_digit p = true /\
    word_at prev = false /\ word_at (head post) = false.
Proof.
  unfold match_pincode_here, word_boundary; split.
  - destruct (take_digits 6 s) as [[d rest]|] eqn:E;
      [| destruct (xorb _ _); discriminate].
    pose proof (proj1 (take_digits_iff _ _ _ _) E) as [Hs [Hl Hd]].
    assert (Hne : d <> EmptyString) by (intros ->; discriminate).
    rewrite (last_char_digits d Hd Hne).
    assert (Hh : word_at (head s) = true).
    { subst s; destruct d as [|c d']; [congruence|]; simpl in *.
      apply andb_true_iff in Hd as [Hc _]; apply digit_is_word, Hc. }
    rewrite Hh.
    destruct (word_at prev); simpl; [discriminate|].
    destruct (word_at (head rest)) eqn:Er; simpl; [discriminate|].
    intros H; injection H as <-; exists rest; auto.
  - intros [post [Hs [Hl [Hd [Hp Hn]]]]].
    assert (E : take_digits 6 s = Some (p, post))
      by (apply take_digits_iff; auto).
    assert (Hne : p <> EmptyString) by (intros ->; discriminate).
    assert (Hh : word_at (head s) = true).
    { subst s; destruct p as [|c d']; [congruence|]; simpl in *.
      apply andb_true_iff in Hd as [Hc _]; apply digit_is_word, Hc. }
    rewrite Hh, Hp, E, (last_char_digits p Hd Hne), Hn; reflexivity.
Qed.

(** The last character of what has been read: of [pre] when it is not empty,
    otherwise the character before it. *)
Definition last_after (prev : option ascii) (pre : string) : option ascii :=
  match last_char pre with Some c => Some c | None => prev end.

Lemma last_after_cons prev c pre :
  last_after prev (String c pre) = last_after (Some c) pre.
Proof. unfold last_after; simpl; destruct (last_char pre); reflexivity. Qed.

(** An occurrence in the unread part [s], [prev] being the character read
    just before it. *)
Definition occurs_from (prev : option ascii) (s pre p post : string) : Prop :=
  s = (pre ++ p ++ post)%string /\ String.length p = 6 /\
  Text.all_chars Text.is_digit p = true /\
  word_at (last_after prev pre) = false /\ word_at (head post) = false.

Lemma occurs_here prev s p post :
  occurs_from prev s EmptyString p post ->
  match_pincode_here prev s = Some p.
Proof.
  intros [Hs [Hl [Hd [Hp Hn]]]]; apply match_pincode_here_iff.
  exists post; auto.
Qed.

Lemma search_pincode_spec (s : string) : forall prev,
  match search_pincode prev s with
  | Some p =>
      exists pre post,
        occurs_from prev s pre p post /\
        forall pre' p' post',
          occurs_from prev s pre' p' post' ->
          String.length pre <= String.length pre'
  | None => forall pre' p' post', ~ occurs_from prev s pre' p' post'
  end.
Proof.
  induction s as [|c r IH]; intros prev; simpl.
  - destruct (match_pincode_here prev EmptyString) as [p|] eqn:E.
    + apply match_pincode_here_iff in E as [post [Hs H]].
      exists EmptyString, post; split.
      * split; [exact Hs | exact H].
      * intros; simpl; lia.
    + intros pre' p' post' [Hs [Hl _]].
      destruct pre'; [|discriminate]. destruct p'; discriminate.
  - destruct (match_pincode_here prev (String c r)) as [p|] eqn:E.
    + apply match_pincode_here_iff in E as [post [Hs H]].
      exists EmptyString, post; split.
      * split; [exact Hs | exact H].
      * intros; simpl; lia.
    + specialize (IH (Some c)).
      destruct (search_pincode (Some c) r) as [p|].
      * destruct IH as [pre [post [[Hs [Hl [Hd [Hp Hn]]]] Hmin]]].
        exists (String c pre), post; split.
        -- split; [simpl; congruence|].
           rewrite last_after_cons; auto.
        -- intros [|c' pre'] p' post' Hocc.
           ++ apply occurs_here in Hocc; congruence.
           ++ destruct Hocc as [Hs' [Hl' [Hd' [Hp' Hn']]]].
              simpl in Hs'; injection Hs' as <- Hs'.
              rewrite last_after_cons in Hp'.
              simpl; apply le_n_S, (Hmin pre' p' post').
              split; auto.
      * intros [|c' pre'] p' post' Hocc.
        -- apply occurs_here in Hocc; congruence.
        -- destruct Hocc as [Hs' [Hl' [Hd' [Hp' Hn']]]].
           simpl in Hs'; injection Hs' as <- Hs'.
           rewrite last_after_cons in Hp'.
           apply (IH pre' p' post'); split; auto.
Qed.

Lemma occurs_from_start (a pre p post : string) :
  occurs_from None a pre p post <-> pin_occurrence a pre p post.
Proof.
  unfold occurs_from, pin_occurrence, last_after.
  destruct (last_char pre); tauto.
Qed.

Lemma re_search_pincode_spec (a : string) :
  first_pin a match re_search_pincode a with
              | Some group1 => group1
              | None => EmptyString
              end.
Proof.
  unfold first_pin, re_search_pincode.
  pose proof (search_pincode_spec a None) as H.
  destruct (search_pincode None a) as [p|].
  - left; destruct H as [pre [post [Hocc Hmin]]]; exists pre, post.
    split; [apply occurs_from_start, Hocc|].
    intros pre' p' post' H'; apply (Hmin pre' p' post').
    apply occurs_from_start, H'.
  - right; split; [reflexivity|].
    intros pre' p' post' H'; apply (H pre' p' post').
    apply occurs_from_start, H'.
Qed.

(** C5.  [_parse_location] returns as pincode the leftmost run of six digits
    with no word character on either side, as state the first entry of the
    state list that is a substring of the address, as city the first entry
    of the city list that is one, each empty when there is none; and the
    address of the example yields Bangalore, Karnataka, 560001.  The word
    characters are those of [re] on [str]: six digits that follow a letter
    with an accent (code 233) are no pincode, six digits that follow a
    no-break space (code 160) are one. *)
Theorem parse_location_spec (address : string) :
  (let '(city, state, pincode) := _parse_location address in
   first_pin address pincode /\
   first_listed states address state /\
   first_listed cities address city) /\
  _parse_location "12 MG Road, Bangalore, Karnataka 560001" =
    ("Bangalore", "Karnataka", "560001") /\
  _parse_location (String (ascii_of_nat 233) "560001") =
    (EmptyString, EmptyString, EmptyString) /\
  _parse_location (String (ascii_of_nat 160) "560001") =
    (EmptyString, EmptyString, "560001").
Proof.
  split; [| repeat split; vm_compute; reflexivity].
  unfold _parse_location; destruct (Text.is_empty address) eqn:E.
  - apply Text.is_empty_true in E; subst address.
    pose proof (re_search_pincode_spec EmptyString) as Hp.
    pose proof (first_contained_spec states EmptyString) as Hs.
    pose proof (first_contained_spec cities EmptyString) as Hc.
    auto.
  - pose proof (re_search_pincode_spec address) as Hp.
    pose proof (first_contained_spec states address) as Hs.
    pose proof (first_contained_spec cities address) as Hc.
    auto.
Qed.

End Location.

(** ** The extraction script run in the page

    [extract_dealers] and [_extract_dealers_from_page] hand the same script
    to [page.evaluate].  A card of the rendered document is what the script
    reads from it. *)

Module Script.

Record Card := mkCard {
  (** [card.querySelector('h3')]: its [innerText], [None] without an h3 *)
  h3_innerText : option string;
  (** [card.querySelectorAll('p')]: the [innerText] of each paragraph *)
  p_innerTexts : list string;
  (** [cardText.match(...)] with the e-mail pattern: the match, if any *)
  email_match : option string;
  (** [card.querySelector('a[href^="tel:"]')]: its [innerText], if any *)
  tel_innerText : option string;
  (** [cardText.match(/[0-9]{10,}/)]: the match, if any *)
  phone_match : option string;
  (** reading the card throws inside the [try] block *)
  throws : bool
}.

(** The object pushed to [results]. *)
Record Candidate := mkCandidate {
  dealer_name : string;
  address : string;
  email : string;
  phone : string
}.

Definition or_empty (o : option string) : string :=
  match o with Some s => s | None => EmptyString end.

(** The part of the callback before the duplicate test: the object the card
    would push, [None] when the callback returns early or throws. *)
Definition read_card (card : Card) : option Candidate :=
  if throws card then None
  else
    let dealerName :=
      match h3_innerText card with
      | Some t => Text.trim t
      | None => EmptyString
      end in
    if Text.is_empty dealerName || Nat.ltb (String.length dealerName) 2
    then None
    else
      let address :=
        match p_innerTexts card with
        | first :: _ => Text.trim first
        | [] => EmptyString
        end in
      let email := or_empty (email_match card) in
      let phone :=
        match tel_innerText card with
        | Some t => Text.trim t
        | None => or_empty (phone_match card)
        end in
      Some (mkCandidate dealerName address email phone).

(** [dealerName.toLowerCase().trim()] *)
Definition key (c : Candidate) : string :=
  Text.trim (Text.lower (dealer_name c)).

(** [dealerName.length > 3] *)
Definition long_name (c : Candidate) : bool :=
  Nat.ltb 3 (String.length (dealer_name c)).

(** One call of the [forEach] callback on [results] and [seenNames]. *)
Definition for_each_card (acc : list Candidate * list string) (card : Card)
  : list Candidate * list string :=
  let '(results, seenNames) := acc in
  match read_card card with
  | None => acc
  | Some cand =>
      if negb (Text.mem (key cand) seenNames) && long_name cand
      then (results ++ [cand], key cand :: seenNames)
      else acc
  end.

(** The script: the value of [results] after the loop. *)
Definition extraction_script (cards : list Card) : list Candidate :=
  fst (fold_left for_each_card cards ([], [])).

(** *** The words of the specification *)

(** The candidates of a page in page order. *)
Definition candidates (cards : list Card) : list Candidate :=
  flat_map (fun card =>
              match read_card card with Some c => [c] | None => [] end)
           cards.

(** Keep the first occurrence of every key: an element stays and every later
    element with its key goes. *)
Fixpoint keep_first (l : list Candidate) : list Candidate :=
  match l with
  | [] => []
  | c :: rest =>
      c :: filter (fun c' => negb (String.eqb (key c') (key c)))
             (keep_first rest)
  end.

(** A card whose only content is an h3 with the given text. *)
Definition named_card (name : string) : Card :=
  mkCard (Some name) [] None None None false.

(** *** The loop as a scan of the candidates *)

(** What the loop appends while reading the candidates [l], [seen] being the
    keys already recorded. *)
Fixpoint scan (seen : list string) (l : list Candidate) : list Candidate :=
  match l with
  | [] => []
  | c :: rest =>
      if negb (Text.mem (key c) seen) && long_name c
      then c :: scan (key c :: seen) rest
      else scan seen rest
  end.

Lemma fold_for_each_card (cards : list Card) :
  forall results seen,
    fst (fold_left for_each_card cards (results, seen)) =
    results ++ scan seen (candidates cards).
Proof.
  induction cards as [|card cards IH]; intros results seen; simpl.
  - symmetry; apply app_nil_r.
  - destruct (read_card card) as [cand|]; simpl; [|apply IH].
    destruct (negb (Text.mem (key cand) seen) && long_name cand).
    + rewrite IH, <- app_assoc; reflexivity.
    + apply IH.
Qed.

Lemma filter_twice {A} (p q : A -> bool) (l : list A) :
  filter p (filter q l) = filter (fun x => q x && p x) l.
Proof.
  induction l as [|x l IH]; simpl; [reflexivity|].
  destruct (q x); simpl; [destruct (p x)|]; rewrite IH; reflexivity.
Qed.

Definition unseen (seen : list string) (c : Candidate) : bool :=
  negb (Text.mem (key c) seen).

Definition other_key (k : string) (c : Candidate) : bool :=
  negb (String.eqb (key c) k).

Lemma scan_keep_first (l : list Candidate) : forall seen,
  scan seen l = filter (unseen seen) (keep_first (filter long_name l)).
Proof.
  induction l as [|c rest IH]; intros seen; simpl; [reflexivity|].
  destruct (long_name c) eqn:El; simpl.
  - fold (other_key (key c)). unfold unseen at 1.
    destruct (Text.mem (key c) seen) eqn:Em; simpl.
    + rewrite IH, filter_twice. apply filter_ext; intros x.
      unfold other_key, unseen.
      destruct (String.eqb_spec (key x) (key c)) as [->|]; simpl;
        [rewrite Em|]; reflexivity.
    + rewrite IH, filter_twice. f_equal. apply filter_ext; intros x.
      unfold other_key, unseen, Text.mem; simpl.
      rewrite negb_orb; reflexivity.
  - rewrite andb_false_r. apply IH.
Qed.

Lemma extraction_script_keep_first (cards : list Card) :
  extraction_script cards = keep_first (filter long_name (candidates cards)).
Proof.
  unfold extraction_script. rewrite fold_for_each_card, scan_keep_first.
  simpl. apply forallb_filter_id, forallb_forall. reflexivity.
Qed.

(** *** Keeping first occurrences *)

Lemma keep_first_incl (l : list Candidate) (c : Candidate) :
  In c (keep_first l) -> In c l.
Proof.
  induction l as [|x rest IH]; simpl; [tauto|].
  intros [H | H]; [left; exact H | right].
  apply filter_In in H as [H _]; apply IH, H.
Qed.

(** Dropping candidates keeps the keys distinct. *)
Lemma distinct_keys_filter (p : Candidate -> bool) (l : list Candidate) :
  NoDup (map key l) -> NoDup (map key (filter p l)).
Proof.
  induction l as [|x l IH]; simpl; [auto|].
  intros H; inversion H as [|? ? Hx Hl]; subst.
  destruct (p x); simpl; [|auto].
  constructor; [|auto].
  intros Hin; apply Hx.
  apply in_map_iff in Hin as [y [Hy Hin]].
  apply filter_In in Hin as [Hin _].
  rewrite <- Hy; apply in_map, Hin.
Qed.

Lemma keep_first_NoDup (l : list Candidate) : NoDup (map key (keep_first l)).
Proof.
  induction l as [|c rest IH]; simpl; constructor.
  - intros Hin. apply in_map_iff in Hin as [y [Hy Hin]].
    apply filter_In in Hin as [_ Hne].
    rewrite Hy, String.eqb_refl in Hne; discriminate.
  - apply distinct_keys_filter, IH.
Qed.

Lemma keep_first_first (l : list Candidate) (c : Candidate) :
  In c (keep_first l) ->
  exists before after,
    l = before ++ c :: after /\
    forall c', In c' before -> key c' <> key c.
Proof.
  induction l as [|x rest IH]; simpl; [tauto|].
  intros [-> | H].
  - exists [], rest; split; [reflexivity | intros c' []].
  - apply filter_In in H as [H Hne].
    destruct (IH H) as [before [after [-> Hb]]].
    exists (x :: before), after; split; [reflexivity|].
    intros c' [<- | Hin]; [|apply Hb, Hin].
    intros E; rewrite E, String.eqb_refl in Hne; discriminate.
Qed.

Lemma keep_first_covers (l : list Candidate) (c : Candidate) :
  In c l -> In (key c) (map key (keep_first l)).
Proof.
  induction l as [|x rest IH]; simpl; [tauto|].
  intros [-> | H]; [left; reflexivity|].
  destruct (String.eqb_spec (key c) (key x)) as [E|Hne];
    [left; symmetry; exact E | right].
  specialize (IH H). apply in_map_iff in IH as [y [Hy Hin]].
  apply in_map_iff; exists y; split; [exact Hy|].
  apply filter_In; split; [exact Hin|].
  rewrite Hy. apply negb_true_iff, String.eqb_neq, Hne.
Qed.

End Script.

(** ** The browser page as seen by the scraper *)

Module Browser.

(** What one navigation followed by one run of the extraction script does. *)
Inductive response :=
| GotoRaises                           (** [page.goto] raises *)
| EvaluateRaises                       (** [page.evaluate] raises *)
| Document (cards : list Script.Card). (** the script runs on these cards *)

(** The site: the response to the [n]-th navigation of the run when it goes
    to [url]. *)
Definition site := nat -> string -> response.

End Browser.

(** ** [extractors/dealer_extractor.py]: [extract_dealers] *)

Module Extractor.

(** The loop over [raw_dealers]; [clock k] is the reading of the clock when
    the [k]-th record is built. *)
Fixpoint build_dealers (clock : nat -> string)
    (vehicle_type brand location source_url : string)
    (k : nat) (raw_dealers : list Script.Candidate) : list Dealer.DealerData :=
  match raw_dealers with
  | [] => []
  | raw :: rest =>
      if Text.is_empty (Script.dealer_name raw)
      then build_dealers clock vehicle_type brand location source_url k rest
      else
        let '(city, state, pincode) :=
          Location._parse_location (Script.address raw) in
        Dealer.new (clock k) vehicle_type brand location
          (Cleaning._clean_name (Script.dealer_name raw))
          (Script.address raw)
          (Cleaning._clean_phone (Script.phone raw))
          (Cleaning._clean_email (Script.email raw))
          city state pincode source_url
        :: build_dealers clock vehicle_type brand location source_url
             (S k) rest
  end.

(** [extract_dealers] on the page that is currently loaded. *)
Definition extract_dealers (clock : nat -> string) (page : Browser.response)
    (vehicle_type brand location source_url : string)
  : list Dealer.DealerData :=
  match page with
  | Browser.Document cards =>
      build_dealers clock vehicle_type brand location source_url 0
        (Script.extraction_script cards)
  | _ => []
  end.

End Extractor.

(** ** [core/dealer_api_fetcher.py] *)

Module Fetcher.

(** A Python [dict] with string keys: the items in insertion order. *)
Definition dict (V : Type) := list (string * V).

(** [d[k] = v]: a present key keeps its place and takes the new value. *)
Fixpoint dict_set {V} (k : string) (v : V) (d : dict V) : dict V :=
  match d with
  | [] => [(k, v)]
  | (k', v') :: rest =>
      if String.eqb k' k then (k, v) :: rest
      else (k', v') :: dict_set k v rest
  end.

Fixpoint dict_get {V} (k : string) (d : dict V) : option V :=
  match d with
  | [] => None
  | (k', v') :: rest => if String.eqb k' k then Some v' else dict_get k rest
  end.

Definition keys {V} (d : dict V) : list string := map fst d.

(** [_extract_dealers_from_page]: the list the script returns, or the empty
    list when evaluating raises. *)
Definition _extract_dealers_from_page (page : Browser.response)
  : list Script.Candidate :=
  match page with
  | Browser.Document cards => Script.extraction_script cards
  | _ => []
  end.

Definition brand_slug (brand : string) : string :=
  Text.strip (Text.lower brand).

Definition city_slug (city : string) : string :=
  Text.delete_char ","
    (Text.replace_char " " "-" (Text.strip (Text.lower city))).

Definition dealers_url (brand city : string) : string :=
  ("https://www.zigwheels.com/dealers/" ++ brand_slug brand ++ "/"
   ++ city_slug city)%string.

(** [get_dealers] as the [nav]-th navigation of the run. *)
Definition get_dealers (web : Browser.site) (nav : nat) (brand city : string)
  : list Script.Candidate :=
  match web nav (dealers_url brand city) with
  | Browser.GotoRaises => []
  | page => _extract_dealers_from_page page
  end.

(** Python truthiness of a list. *)
Definition truthy {A} (l : list A) : bool :=
  match l with [] => false | _ :: _ => true end.

(** The loop of [get_dealers_batch]: one navigation per city. *)
Fixpoint batch_loop (web : Browser.site) (brand : string)
    (cities : list string) (nav : nat) (results : dict (list Script.Candidate))
  : dict (list Script.Candidate) :=
  match cities with
  | [] => results
  | city :: rest =>
      let dealers := get_dealers web nav brand city in
      let results :=
        if truthy dealers then dict_set city dealers results else results in
      batch_loop web brand rest (S nav) results
  end.

Definition get_dealers_batch (web : Browser.site) (nav : nat)
    (brand : string) (cities : list string)
  : dict (list Script.Candidate) :=
  batch_loop web brand cities nav [].

(** *** Extraction *)

Lemma candidates_In (cards : list Script.Card) (c : Script.Candidate) :
  In c (Script.candidates cards) <->
  exists card, In card cards /\ Script.read_card card = Some c.
Proof.
  unfold Script.candidates; rewrite in_flat_map; split.
  - intros [card [Hin Hc]]; exists card; split; [exact Hin|].
    destruct (Script.read_card card); simpl in Hc; [|tauto].
    destruct Hc as [-> | []]; reflexivity.
  - intros [card [Hin Hc]]; exists card; split; [exact Hin|].
    rewrite Hc; left; reflexivity.
Qed.

Lemma read_card_name (card : Script.Card) (c : Script.Candidate) :
  Script.read_card card = Some c ->
  exists t, Script.h3_innerText card = Some t /\
            Script.dealer_name c = Text.trim t.
Proof.
  unfold Script.read_card.
  destruct (Script.throws card); [discriminate|].
  destruct (Script.h3_innerText card) as [t|]; [|simpl; discriminate].
  destruct (_ || _); [discriminate|].
  intros H; injection H as <-; exists t; split; reflexivity.
Qed.

Lemma build_dealers_length clock vt br loc url (raws : list Script.Candidate) :
  (forall c, In c raws -> Script.long_name c = true) ->
  forall k,
    List.length (Extractor.build_dealers clock vt br loc url k raws) =
    List.length raws.
Proof.
  induction raws as [|raw rest IH]; intros Hlong k; simpl; [reflexivity|].
  assert (Hraw : Script.long_name raw = true) by (apply Hlong; left; reflexivity).
  unfold Script.long_name in Hraw.
  destruct (Script.dealer_name raw) as [|ch name] eqn:En;
    [discriminate|]; simpl.
  destruct (Location._parse_location (Script.address raw)) as [[city st] pin].
  simpl; f_equal; apply IH.
  intros c Hc; apply Hlong; right; exact Hc.
Qed.

Lemma extraction_long (cards : list Script.Card) (c : Script.Candidate) :
  In c (Script.extraction_script cards) -> Script.long_name c = true.
Proof.
  rewrite Script.extraction_script_keep_first; intros H.
  apply Script.keep_first_incl, filter_In in H; apply H.
Qed.

(** The name the claim compares: case-normalised, then trimmed. *)
Definition normalized (c : Script.Candidate) : string :=
  Text.trim (Text.lower (Script.dealer_name c)).

Lemma extraction_keeps_first (cards : list Script.Card) :
  let eligible := filter Script.long_name (Script.candidates cards) in
  let found := Script.extraction_script cards in
  found = Script.keep_first eligible /\
  NoDup (map normalized found) /\
  (forall c, In c found ->
     exists before after,
       eligible = before ++ c :: after /\
       forall c', In c' before -> normalized c' <> normalized c) /\
  (forall c, In c eligible -> In (normalized c) (map normalized found)).
Proof.
  cbv zeta. rewrite Script.extraction_script_keep_first.
  split; [reflexivity|].
  split; [apply Script.keep_first_NoDup|].
  split.
  - intros c Hc; apply Script.keep_first_first, Hc.
  - intros c Hc; apply Script.keep_first_covers, Hc.
Qed.

(** C4.  The candidates a page yields are its eligible cards (name read and
    longer than three characters after trimming) with only the first card of
    every lower-cased, trimmed name kept: the key the script compares is the
    lower-cased, trimmed name; no two results have the same one; every
    result has a trimmed name longer than three characters and is preceded
    by no eligible card with the same one; every eligible card has its
    lower-cased, trimmed name among those of the results; and
    [extract_dealers] builds one record per result.  Two cards named
    [ABC Motors] and [abc motors ] yield one candidate, the first; so do
    two names that differ by the case of a letter with an accent and by a
    no-break space at the end. *)
Theorem extraction_deduplicates (cards : list Script.Card) :
  let page := Browser.Document cards in
  let eligible := filter Script.long_name (Script.candidates cards) in
  let found := _extract_dealers_from_page page in
  (forall c,
     Script.key c = Text.trim (Text.lower (Script.dealer_name c)) /\
     Script.long_name c = Nat.ltb 3 (String.length (Script.dealer_name c))) /\
  found = Script.keep_first eligible /\
  NoDup (map normalized found) /\
  (forall c, In c found ->
     3 < String.length (Script.dealer_name c) /\
     (exists card t,
        In card cards /\ Script.h3_innerText card = Some t /\
        Script.dealer_name c = Text.trim t) /\
     (exists before after,
        eligible = before ++ c :: after /\
        forall c', In c' before -> normalized c' <> normalized c)) /\
  (forall c, In c eligible -> In (normalized c) (map normalized found)) /\
  (forall clock vt br loc url,
     List.length (Extractor.extract_dealers clock page vt br loc url) =
     List.length found) /\
  (let two :=
     Browser.Document
       [Script.named_card "ABC Motors"; Script.named_card "abc motors "] in
   _extract_dealers_from_page two =
     [Script.mkCandidate "ABC Motors" EmptyString EmptyString EmptyString] /\
   forall clock vt br loc url,
     List.length (Extractor.extract_dealers clock two vt br loc url) = 1) /\
  (let capital := String (ascii_of_nat 201) "COLE" in
   let small :=
     (String (ascii_of_nat 233) "cole" ++
      String (ascii_of_nat 160) EmptyString)%string in
   _extract_dealers_from_page
     (Browser.Document [Script.named_card capital; Script.named_card small])
   = [Script.mkCandidate capital EmptyString EmptyString EmptyString]).
Proof.
  cbv zeta; unfold _extract_dealers_from_page.
  destruct (extraction_keeps_first cards) as (Hk & Hn & Hf & Hc).
  split; [intros c; split; reflexivity|].
  split; [exact Hk|]. split; [exact Hn|].
  split; [|split; [exact Hc|split]].
  - intros c Hin. split; [|split].
    + apply extraction_long in Hin. unfold Script.long_name in Hin.
      apply Nat.ltb_lt, Hin.
    + rewrite Script.extraction_script_keep_first in Hin.
      apply Script.keep_first_incl, filter_In in Hin as [Hin _].
      apply candidates_In in Hin as [card [Hin Hr]].
      apply read_card_name in Hr as [t [Ht Hname]].
      exists card, t; auto.
    + apply Hf, Hin.
  - intros clock vt br loc url; unfold Extractor.extract_dealers.
    apply build_dealers_length. intros c; apply extraction_long.
  - split; [split|]; vm_compute; reflexivity.
Qed.

(** The two cards of the example: the first is a result and its name has
    more than three characters. *)
Lemma extraction_deduplicates_witness :
  let cards :=
    [Script.named_card "ABC Motors"; Script.named_card "abc motors "] in
  let c :=
    Script.mkCandidate "ABC Motors" EmptyString EmptyString EmptyString in
  In c (_extract_dealers_from_page (Browser.Document cards)) /\
  3 < String.length (Script.dealer_name c).
Proof.
  cbv zeta.
  assert (Hin : In (Script.mkCandidate "ABC Motors" EmptyString EmptyString
                      EmptyString)
                  (_extract_dealers_from_page
                     (Browser.Document
                        [Script.named_card "ABC Motors";
                         Script.named_card "abc motors "])))
    by (left; reflexivity).
  split; [exact Hin|].
  pose proof (extraction_deduplicates
                [Script.named_card "ABC Motors";
                 Script.named_card "abc motors "]) as H.
  cbv zeta in H. destruct H as (_ & _ & _ & H & _).
  exact (proj1 (H _ Hin)).
Defined.

(** *** The batch dictionary *)

Lemma dict_set_In {V} (k k' : string) (v v' : V) (d : dict V) :
  In (k, v) (dict_set k' v' d) -> (k, v) = (k', v') \/ In (k, v) d.
Proof.
  induction d as [|[k0 v0] rest IH]; simpl.
  - intros [H | []]; left; symmetry; exact H.
  - destruct (String.eqb k0 k'); simpl.
    + intros [H | H]; [left; symmetry; exact H | right; right; exact H].
    + intros [H | H]; [right; left; exact H|].
      destruct (IH H); [left | right; right]; assumption.
Qed.

Lemma dict_set_keys {V} (k k' : string) (v' : V) (d : dict V) :
  In k (keys (dict_set k' v' d)) <-> k = k' \/ In k (keys d).
Proof.
  unfold keys; induction d as [|[k0 v0] rest IH]; simpl.
  - split; [intros [H | []]; left; symmetry; exact H
           | intros [H | []]; left; symmetry; exact H].
  - destruct (String.eqb_spec k0 k') as [->|Hne]; simpl.
    + split; [intros [H | H] | intros [H | [H | H]]]; auto.
    + rewrite IH; tauto.
Qed.

Lemma dict_set_NoDup {V} (k' : string) (v' : V) (d : dict V) :
  NoDup (keys d) -> NoDup (keys (dict_set k' v' d)).
Proof.
  induction d as [|[k0 v0] rest IH]; simpl; intros H.
  - constructor; [intros [] | constructor].
  - inversion H as [|? ? Hk Hrest]; subst.
    destruct (String.eqb_spec k0 k') as [->|Hne]; simpl.
    + constructor; assumption.
    + constructor; [|apply IH, Hrest].
      intros Hin; apply (dict_set_keys k0 k' v' rest) in Hin.
      destruct Hin as [E | Hin]; [congruence | contradiction].
Qed.

Section Batch.
Variable web : Browser.site.
Variable brand : string.

(** Some fetch of [city] during the loop over [cities], started at navigation
    [nav], found dealers. *)
Definition fetched (cities : list string) (nav : nat) (city : string)
    (dealers : list Script.Candidate) : Prop :=
  dealers <> [] /\
  exists i, nth_error cities i = Some city /\
            get_dealers web (nav + i) brand city = dealers.

Lemma fetched_head city rest nav :
  get_dealers web nav brand city <> [] ->
  fetched (city :: rest) nav city (get_dealers web nav brand city).
Proof.
  intros H; split; [exact H|].
  exists 0; rewrite Nat.add_0_r; split; reflexivity.
Qed.

Lemma fetched_tail c rest nav city dealers :
  fetched rest (S nav) city dealers -> fetched (c :: rest) nav city dealers.
Proof.
  intros [H [i [Hi Hg]]]; split; [exact H|].
  exists (S i); rewrite Nat.add_succ_r; split; assumption.
Qed.

Lemma fetched_inv c rest nav city dealers :
  fetched (c :: rest) nav city dealers ->
  (c = city /\ get_dealers web nav brand city = dealers /\ dealers <> []) \/
  fetched rest (S nav) city dealers.
Proof.
  intros [H [[|i] [Hi Hg]]]; simpl in Hi.
  - left; injection Hi as ->; rewrite Nat.add_0_r in Hg; auto.
  - right; split; [exact H|].
    exists i; rewrite Nat.add_succ_r in Hg; auto.
Qed.

Lemma truthy_iff {A} (l : list A) : truthy l = true <-> l <> [].
Proof. destruct l; simpl; split; congruence. Qed.

Lemma batch_loop_items (cities : list string) : forall nav results city dealers,
  In (city, dealers) (batch_loop web brand cities nav results) ->
  In (city, dealers) results \/ fetched cities nav city dealers.
Proof.
  induction cities as [|c rest IH]; intros nav results city dealers; simpl.
  - auto.
  - intros H; apply IH in H as [H | H]; [|right; apply fetched_tail, H].
    destruct (truthy (get_dealers web nav brand c)) eqn:E; [|left; exact H].
    apply dict_set_In in H as [H | H]; [|left; exact H].
    injection H as -> ->; right.
    apply fetched_head, truthy_iff, E.
Qed.

Lemma batch_loop_keys (cities : list string) : forall nav results city,
  In city (keys (batch_loop web brand cities nav results)) <->
  In city (keys results) \/ exists dealers, fetched cities nav city dealers.
Proof.
  induction cities as [|c rest IH]; intros nav results city; simpl.
  - split; [auto | intros [H | [d [_ [[|i] [Hi _]]]]]; [exact H | | ]];
      discriminate.
  - rewrite IH; split.
    + intros [H | [d H]]; [|right; exists d; apply fetched_tail, H].
      destruct (truthy (get_dealers web nav brand c)) eqn:E; [|left; exact H].
      apply dict_set_keys in H as [-> | H]; [|left; exact H].
      right; eexists; apply fetched_head, truthy_iff, E.
    + intros [H | [d H]].
      * left; destruct (truthy _); [apply dict_set_keys; right|]; exact H.
      * apply fetched_inv in H as [[-> [Hg Hd]] | H]; [|right; exists d; exact H].
        left. subst d. apply truthy_iff in Hd; rewrite Hd.
        apply dict_set_keys; left; reflexivity.
Qed.

Lemma batch_loop_NoDup (cities : list string) : forall nav results,
  NoDup (keys results) ->
  NoDup (keys (batch_loop web brand cities nav results)).
Proof.
  induction cities as [|c rest IH]; intros nav results H; simpl; [exact H|].
  apply IH; destruct (truthy _); [apply dict_set_NoDup|]; exact H.
Qed.

(** C9.  The dictionary returned by [get_dealers_batch] has distinct keys;
    every item pairs a city of the input list with the non-empty list one of
    its fetches returned; a city is a key exactly when one of its fetches
    returned a non-empty list, so a city whose fetches all returned the empty
    list is absent; and a fetch whose navigation or evaluation raised
    returns the empty list. *)
Theorem get_dealers_batch_keys (nav : nat) (cities : list string) :
  let results := get_dealers_batch web nav brand cities in
  NoDup (keys results) /\
  (forall city dealers,
     In (city, dealers) results ->
     In city cities /\ dealers <> [] /\ fetched cities nav city dealers) /\
  (forall city,
     In city (keys results) <->
     exists dealers, fetched cities nav city dealers) /\
  (forall city,
     (forall i, nth_error cities i = Some city ->
                get_dealers web (nav + i) brand city = []) ->
     dict_get city results = None /\ ~ In city (keys results)) /\
  (forall n city,
     web n (dealers_url brand city) = Browser.GotoRaises \/
     web n (dealers_url brand city) = Browser.EvaluateRaises ->
     get_dealers web n brand city = []).
Proof.
  cbv zeta; unfold get_dealers_batch.
  assert (Hkeys : forall city,
             In city (keys (batch_loop web brand cities nav [])) <->
             exists dealers, fetched cities nav city dealers).
  { intros city; rewrite batch_loop_keys; simpl; tauto. }
  split; [apply batch_loop_NoDup; constructor|].
  split; [|split; [exact Hkeys|split]].
  - intros city dealers H.
    apply batch_loop_items in H as [[] | H].
    split; [|split; [apply H | exact H]].
    destruct H as [_ [i [Hi _]]]; apply nth_error_In in Hi; exact Hi.
  - intros city Hall.
    assert (Hnot : ~ In city (keys (batch_loop web brand cities nav []))).
    { rewrite Hkeys; intros [d [Hd [i [Hi Hg]]]].
      rewrite (Hall i Hi) in Hg; congruence. }
    split; [|exact Hnot].
    destruct (dict_get city (batch_loop web brand cities nav [])) eqn:E;
      [|reflexivity].
    exfalso; apply Hnot; clear - E.
    induction (batch_loop web brand cities nav []) as [|[k v] rest IH];
      simpl in *; [discriminate|].
    destruct (String.eqb_spec k city); [left; assumption | right; auto].
  - intros n city [H | H]; unfold get_dealers; rewrite H; reflexivity.
Qed.

End Batch.

(** A site that shows one card for the brand [bmw] in Pune and fails to load
    any other page. *)
Definition pune_only : Browser.site :=
  fun _ url =>
    if String.eqb url (dealers_url "bmw" "Pune")
    then Browser.Document [Script.named_card "ABCD Motors"]
    else Browser.GotoRaises.

(** On that site, for Pune and Delhi: Pune is the only key, its value is the
    card found, and Delhi, whose page does not load, is absent. *)
Lemma get_dealers_batch_keys_witness :
  let results := get_dealers_batch pune_only 0 "bmw" ["Pune"; "Delhi"] in
  let found :=
    [Script.mkCandidate "ABCD Motors" EmptyString EmptyString EmptyString] in
  results = [("Pune", found)] /\
  (In "Pune" ["Pune"; "Delhi"] /\ found <> [] /\
   fetched pune_only "bmw" ["Pune"; "Delhi"] 0 "Pune" found) /\
  (dict_get "Delhi" results = None /\ ~ In "Delhi" (keys results)).
Proof.
  cbv zeta.
  pose proof (get_dealers_batch_keys pune_only "bmw" 0 ["Pune"; "Delhi"])
    as H.
  cbv zeta in H. destruct H as (_ & Hitems & _ & Habsent & _).
  split; [reflexivity|]. split.
  - apply Hitems. left; reflexivity.
  - apply Habsent. intros [|[|[|i]]] Hi; simpl in Hi;
      try discriminate; reflexivity.
Defined.

End Fetcher.

(** ** [core/city_discoverer.py] *)

Module Cities.

(** Strings in the order of Python's comparison of [str], character code by
    character code. *)
Module StringOrder <: Orders.TotalLeBool.
Definition t := string.
Definition leb := String.leb.
Definition leb_total := String.leb_total.
End StringOrder.

Module StringSort := Mergesort.Sort StringOrder.

(** An object of the city array, with its string-valued fields. *)
Definition entry := Fetcher.dict string.

(** What the request to the CDN gives. *)
Inductive http_result :=
| HttpError                               (** transport error or bad status *)
| JsonDecodeError                         (** the body is not JSON *)
| JsonOther                               (** JSON, but not an array *)
| JsonArray (cities_data : list entry).

(** [_fetch_cities_json] *)
Definition _fetch_cities_json (r : http_result) : list entry :=
  match r with
  | JsonArray cities_data => cities_data
  | _ => []
  end.

(** [[city.get('value', '') for city in cities_data if city.get('value')]] *)
Fixpoint values (cities_data : list entry) : list string :=
  match cities_data with
  | [] => []
  | city :: rest =>
      match Fetcher.dict_get "value" city with
      | Some v => if Text.is_empty v then values rest else v :: values rest
      | None => values rest
      end
  end.

(** [set(...)]: the distinct elements, compared as [str] values. *)
Definition set (l : list string) : list string := nodup string_dec l.

(** [sorted(list(...))] *)
Definition sorted (l : list string) : list string := StringSort.sort l.

(** [discover_all_cities] from the response to its request. *)
Definition discover_all_cities (r : http_result) : list string :=
  let cities_data := _fetch_cities_json r in
  if Fetcher.truthy cities_data then sorted (set (values cities_data))
  else [].

(** Two entries of the array whose names differ in the case of one letter. *)
Definition mumbai_twice : http_result :=
  JsonArray [ [("value", "Mumbai")]; [("value", "mumbai")] ].

Lemma values_In (cities_data : list entry) (x : string) :
  In x (values cities_data) <->
  x <> EmptyString /\
  exists city, In city cities_data /\ Fetcher.dict_get "value" city = Some x.
Proof.
  induction cities_data as [|city rest IH]; simpl.
  - split; [intros [] | intros [_ [c [[] _]]]].
  - destruct (Fetcher.dict_get "value" city) as [v|] eqn:E.
    + destruct (Text.is_empty v) eqn:Ev.
      * apply Text.is_empty_true in Ev; subst v.
        rewrite IH; split.
        -- intros [Hx [c [Hc Hv]]]; split; [exact Hx|]; exists c; auto.
        -- intros [Hx [c [[<- | Hc] Hv]]]; [congruence|].
           split; [exact Hx|]; exists c; auto.
      * apply Text.is_empty_false in Ev; simpl; rewrite IH; split.
        -- intros [<- | [Hx [c [Hc Hv]]]].
           ++ split; [exact Ev|]; exists city; auto.
           ++ split; [exact Hx|]; exists c; auto.
        -- intros [Hx [c [[<- | Hc] Hv]]]; [left; congruence|].
           right; split; [exact Hx|]; exists c; auto.
    + rewrite IH; split.
      * intros [Hx [c [Hc Hv]]]; split; [exact Hx|]; exists c; auto.
      * intros [Hx [c [[<- | Hc] Hv]]]; [congruence|].
        split; [exact Hx|]; exists c; auto.
Qed.

(** C8, as stated, fails: from an array holding [Mumbai] and [mumbai] both
    names are returned, and they are equal once lower-cased. *)
Lemma catalog_keeps_case_variants :
  discover_all_cities mumbai_twice = ["Mumbai"; "mumbai"] /\
  ~ NoDup (map Text.lower (discover_all_cities mumbai_twice)).
Proof.
  split; [vm_compute; reflexivity|].
  intros H. vm_compute in H.
  inversion H as [|? ? Hin _]; apply Hin; left; reflexivity.
Qed.

(** C8, amended.  The list of city names returned has no two equal entries
    (compared as they are, case included), is in ascending order, and holds
    exactly the non-empty [value] fields of the fetched array; a failed
    fetch gives the empty list. *)
Theorem catalog_unique_sorted (r : http_result) :
  NoDup (discover_all_cities r) /\
  Sorted (fun a b => String.leb a b = true) (discover_all_cities r) /\
  (forall x,
     In x (discover_all_cities r) <->
     x <> EmptyString /\
     exists city, In city (_fetch_cities_json r) /\
                  Fetcher.dict_get "value" city = Some x) /\
  (r = HttpError \/ r = JsonDecodeError \/ r = JsonOther ->
   discover_all_cities r = []).
Proof.
  unfold discover_all_cities.
  assert (Hperm : forall l, Permutation (set l) (sorted (set l)))
    by (intros l; apply StringSort.Permuted_sort).
  split; [|split; [|split]].
  - destruct (Fetcher.truthy _); [|constructor].
    eapply Permutation_NoDup; [apply Hperm | apply NoDup_nodup].
  - destruct (Fetcher.truthy _); [|constructor].
    apply StringSort.Sorted_sort.
  - intros x. destruct (_fetch_cities_json r) as [|c rest] eqn:E.
    + simpl; split; [intros [] | intros [_ [city [[] _]]]].
    + cbv [Fetcher.truthy]. rewrite <- values_In.
      split; intros H.
      * eapply Permutation_in in H; [|symmetry; apply Hperm].
        apply nodup_In in H; exact H.
      * eapply Permutation_in; [apply Hperm|].
        apply nodup_In; exact H.
  - intros [-> | [-> | ->]]; reflexivity.
Qed.

End Cities.

(** ** [exceptions/custom_exceptions.py] and the exceptions of the libraries *)

Module Exceptions.

Inductive exception :=
| ScraperException (message : string)
| NetworkException (message : string)
| ParseException (message : string)
| RateLimitException (message : string)
| ConfigurationException (message : string)
| DataValidationException (message : string)
| PlaywrightTimeout (message : string)   (** playwright's [TimeoutError] *)
| RetryError (last_attempt : exception)  (** tenacity's [RetryError] *)
| OtherException (message : string).     (** any other [Exception] *)

(** What a call does: it returns a value or raises. *)
Inductive outcome (A : Type) :=
| Returned (value : A)
| Raised (e : exception).

Arguments Returned {A} value.
Arguments Raised {A} e.

End Exceptions.

(** ** [storage/data_saver.py] *)

Module Saver.
Import Exceptions.

Inductive table_format := Excel | Csv | Json.

(** A file of the directory: the rows of the data frame in the given
    format, or what a writer that raised left of the file it had opened. *)
Inductive table :=
| mkTable (format : table_format) (rows : list Dealer.DealerData)
| Unfinished.

(** A writer of the data frame that raises: the text of its exception, and
    whether it had opened its target for writing before.  Nothing in [save]
    removes the file of a writer that failed. *)
Record write_failure := mkWriteFailure {
  failure_message : string;
  opened : bool
}.

(** The output directory: the files written, by path. *)
Definition directory := Fetcher.dict table.

Definition parse_format (format_type : string) : option table_format :=
  if String.eqb format_type "excel" then Some Excel
  else if String.eqb format_type "csv" then Some Csv
  else if String.eqb format_type "json" then Some Json
  else None.

Definition backslash : string := String (ascii_of_nat 92) EmptyString.

(** The test made on [custom_filename]. *)
Definition path_traversal (name : string) : bool :=
  Text.contains ".." name || Text.contains "/" name
  || Text.contains backslash name.

(** [save].  [timestamp] is the formatted clock reading; [write_error] is
    what the writer of the data frame does when it raises;
    [custom_filename] is [None] for Python's [None]. *)
Definition save (timestamp : string) (write_error : option write_failure)
    (dealers : list Dealer.DealerData) (format_type : string)
    (custom_filename : option string) (output_dir : directory)
  : outcome (option string) * directory :=
  if negb (Fetcher.truthy dealers) then (Returned None, output_dir)
  else
    let failed (message : string) :=
      (Raised (ScraperException ("Data save failed: " ++ message)%string),
       output_dir) in
    let named :=
      match custom_filename with
      | Some name => negb (Text.is_empty name)
      | None => false
      end in
    let name := Script.or_empty custom_filename in
    if named && path_traversal name
    then failed "Invalid filename: path traversal detected"
    else
      let base_name :=
        if named then name
        else ("zigwheels_dealers_" ++ timestamp)%string in
      match parse_format format_type with
      | None => failed ("Invalid format type: " ++ format_type)%string
      | Some fmt =>
          let ext :=
            if String.eqb format_type "excel" then "xlsx" else format_type in
          let output_file :=
            ("output/" ++ base_name ++ "." ++ ext)%string in
          match write_error with
          | Some failure =>
              (Raised (ScraperException
                         ("Data save failed: " ++ failure_message failure)
                         %string),
               if opened failure
               then Fetcher.dict_set output_file Unfinished output_dir
               else output_dir)
          | None =>
              (Returned (Some output_file),
               Fetcher.dict_set output_file (mkTable fmt dealers) output_dir)
          end
      end.

(** C10.  With no record to save, [save] returns [None]: it raises nothing
    and the output directory is left as it was, whatever the format, the
    file name and the state of the writer are.  With at least one record it
    never returns [None]: it returns a path or raises. *)
Theorem save_nothing (timestamp : string)
    (write_error : option write_failure)
    (format_type : string) (custom_filename : option string)
    (output_dir : directory) :
  save timestamp write_error [] format_type custom_filename output_dir =
    (Returned None, output_dir) /\
  (forall dealer dealers,
     fst (save timestamp write_error (dealer :: dealers) format_type
            custom_filename output_dir) <> Returned None).
Proof.
  split; [reflexivity|].
  intros dealer dealers; unfold save; simpl.
  destruct (_ && _); [discriminate|].
  destruct (parse_format format_type); [|discriminate].
  destruct write_error; discriminate.
Qed.

End Saver.

(** ** [core/scraper.py]: the orchestrator *)

Module Orchestrator.
Import Exceptions.

Inductive ScraperStatus := IDLE | RUNNING | PAUSED | COMPLETED | FAILED.

(** The dictionary [self.stats]. *)
Module Stats.
Record t := make {
  total_attempts : nat;
  successful_scrapes : nat;
  failed_scrapes : nat;
  invalid_data : nat;
  retries : nat
}.
End Stats.

(** An entry of the list [self.failed_scrapes]. *)
Module FailedScrape.
Record t := make {
  vehicle_type : string;
  brand : string;
  error : string;
  timestamp : string
}.
End FailedScrape.

(** The scraper object during a run.  [time] counts the interactions with
    the outside (navigations, clock readings, file and network reads) made
    so far; it indexes what the outside answers. *)
Record Run := mkRun {
  dealers_data : list Dealer.DealerData;
  failed_scrapes : list FailedScrape.t;
  status : ScraperStatus;
  stats : Stats.t;
  time : nat
}.

(** [ZigWheelsProductionScraper.__init__] *)
Definition init : Run :=
  mkRun [] [] IDLE (Stats.make 0 0 0 0 0) 0.

Definition advance (n : nat) (run : Run) : Run :=
  mkRun (dealers_data run) (failed_scrapes run) (status run) (stats run)
    (time run + n).

(** [self.dealers_data.append(dealer)] *)
Definition append_dealer (dealer : Dealer.DealerData) (run : Run) : Run :=
  mkRun (dealers_data run ++ [dealer]) (failed_scrapes run) (status run)
    (stats run) (time run).

(** [self.failed_scrapes.append(entry)] *)
Definition append_failed (entry : FailedScrape.t) (run : Run) : Run :=
  mkRun (dealers_data run) (failed_scrapes run ++ [entry]) (status run)
    (stats run) (time run).

(** [self.stats['invalid_data'] += n] *)
Definition add_invalid_data (n : nat) (run : Run) : Run :=
  let s := stats run in
  mkRun (dealers_data run) (failed_scrapes run) (status run)
    (Stats.make (Stats.total_attempts s) (Stats.successful_scrapes s)
       (Stats.failed_scrapes s) (Stats.invalid_data s + n) (Stats.retries s))
    (time run).

(** [self.stats['successful_scrapes'] += n] *)
Definition add_successful_scrapes (n : nat) (run : Run) : Run :=
  let s := stats run in
  mkRun (dealers_data run) (failed_scrapes run) (status run)
    (Stats.make (Stats.total_attempts s) (Stats.successful_scrapes s + n)
       (Stats.failed_scrapes s) (Stats.invalid_data s) (Stats.retries s))
    (time run).

(** The value of a brand's [locations] setting: the text [all], a list, or
    anything else ([None] when the key is missing or the brand is given as a
    plain name). *)
Inductive locations_setting :=
| LocationsAll
| LocationsList (locations : list string)
| LocationsOther.

(** An element of [vehicle_config['brands']]. *)
Inductive brand_config :=
| BrandName (name : string)
| BrandDict (name : string) (locations : locations_setting).

(** A value of [vehicle_types]: [base_url] is [None] when the dictionary has
    no such key, and [vehicle_config['base_url']] then raises [KeyError];
    [brands] is what [vehicle_config.get('brands', [])] gives. *)
Record vehicle_config := mkVehicleConfig {
  base_url : option string;
  brands : list brand_config
}.

(** *** The retry decorator of [_scrape_brand]

    [@retry(stop=stop_after_attempt(3),
            wait=wait_exponential(multiplier=1, min=4, max=10),
            retry=retry_if_exception_type((NetworkException,
                                           PlaywrightTimeout)))]
    with the meaning tenacity gives to these arguments. *)

(** [retry_if_exception_type((NetworkException, PlaywrightTimeout))] *)
Definition retry_if_exception_type (e : exception) : bool :=
  match e with
  | NetworkException _ | PlaywrightTimeout _ => true
  | _ => false
  end.

(** [stop_after_attempt(max_attempt_number)] *)
Definition stop_after_attempt (max_attempt_number attempt_number : nat)
  : bool :=
  Nat.leb max_attempt_number attempt_number.

(** [wait_exponential(multiplier, min, max)], base 2: the wait after the
    attempt numbered [attempt_number]. *)
Definition wait_exponential (multiplier min max : Z) (attempt_number : nat)
  : Z :=
  let exp := (2 ^ (Z.of_nat attempt_number - 1))%Z in
  let result := (multiplier * exp)%Z in
  Z.max (Z.max 0 min) (Z.min result max).

(** What a decorated call did: its result, the scraper after it, the outcome
    of each attempt in order and the waits slept between attempts. *)
Record retried := mkRetried {
  result : outcome unit;
  final : Run;
  attempts : list (outcome unit);
  waited : list Z
}.

Section Retry.
Variable body : Run -> outcome unit * Run.

(** The loop of the decorator from attempt [attempt_number] on; [left]
    bounds the attempts still to come. *)
Fixpoint retry_loop (left attempt_number : nat) (run : Run) : retried :=
  let '(o, run) := body run in
  match o with
  | Returned value => mkRetried (Returned value) run [o] []
  | Raised e =>
      if negb (retry_if_exception_type e) then
        mkRetried (Raised e) run [o] []
      else if stop_after_attempt 3 attempt_number then
        mkRetried (Raised (RetryError e)) run [o] []
      else
        match left with
        | 0 => mkRetried (Raised (RetryError e)) run [o] []
        | S left' =>
            let wait := wait_exponential 1 4 10 attempt_number in
            let r := retry_loop left' (S attempt_number) run in
            mkRetried (result r) (final r) (o :: attempts r)
              (wait :: waited r)
        end
  end.

(** The decorated function: attempts are numbered from 1. *)
Definition retry : Run -> retried := retry_loop 3 1.



Lemma retry_loop_step (left n : nat) (run : Run) :
  retry_loop left n run =
  let '(o, run') := body run in
  match o with
  | Returned value => mkRetried (Returned value) run' [o] []
  | Raised e =>
      if negb (retry_if_exception_type e) then
        mkRetried (Raised e) run' [o] []
      else if stop_after_attempt 3 n then
        mkRetried (Raised (RetryError e)) run' [o] []
      else
        match left with
        | 0 => mkRetried (Raised (RetryError e)) run' [o] []
        | S left' =>
            let r := retry_loop left' (S n) run' in
            mkRetried (result r) (final r) (o :: attempts r)
              (wait_exponential 1 4 10 n :: waited r)
        end
  end.
Proof. destruct left; reflexivity. Qed.





(** More room for attempts changes nothing: the loop stops by itself. *)
Lemma retry_loop_bound (left : nat) (run : Run) :
  retry_loop (3 + left) 1 run = retry run.
Proof.
  unfold retry; cbn -[wait_exponential].
  destruct (body run) as [[[]|e1] r1]; [reflexivity|].
  destruct (retry_if_exception_type e1); [|reflexivity].
  cbn -[wait_exponential].
  destruct (body r1) as [[[]|e2] r2]; [reflexivity|].
  destruct (retry_if_exception_type e2); [|reflexivity].
  cbn -[wait_exponential].
  destruct (body r2) as [[[]|e3] r3]; [reflexivity|].
  destruct (retry_if_exception_type e3); reflexivity.
Qed.

End Retry.

Section Scraper.
(** The outside of the scraper. *)
Variable web : Browser.site.
(** The formatted clock reading at each time. *)
Variable clock : nat -> string.
(** What [load_cities_from_file] returns at each time. *)
Variable cached_cities : nat -> list string.
(** What the request of [_fetch_cities_json] gives at each time. *)
Variable cities_response : nat -> Cities.http_result.
(** [repr] of the future a [RetryError] holds. *)
Variable repr_future : exception -> string.
(** [self.config.get('validate_data')], as a truth value. *)
Variable validate_data : bool.

(** [str(e)].  The scraper's exceptions are raised with a message only. *)
Definition str (e : exception) : string :=
  match e with
  | ScraperException m | NetworkException m | ParseException m
  | RateLimitException m | ConfigurationException m
  | DataValidationException m | PlaywrightTimeout m | OtherException m => m
  | RetryError last_attempt =>
      ("RetryError[" ++ repr_future last_attempt ++ "]")%string
  end.

(** *** [_scrape_brand_via_api] *)

(** The record built from one dictionary of the batch, at time [t]. *)
Definition to_dealer (t : nat) (vehicle_type brand city : string)
    (dealer_dict : Script.Candidate) : Dealer.DealerData :=
  Dealer.new (clock t) vehicle_type brand city
    (Script.dealer_name dealer_dict) (Script.address dealer_dict)
    (Script.phone dealer_dict) (Script.email dealer_dict)
    EmptyString EmptyString EmptyString EmptyString.

(** The test [is_valid or not self.config.get('validate_data')]. *)
Definition kept (dealer : Dealer.DealerData) : bool :=
  let '(is_valid, errors) := Dealer.is_valid dealer in
  is_valid || negb validate_data.

(** The body of the inner loop, on the scraper and [total_dealers]. *)
Definition add_dealer (vehicle_type brand city : string) (acc : Run * nat)
    (dealer_dict : Script.Candidate) : Run * nat :=
  let '(run, total_dealers) := acc in
  let dealer := to_dealer (time run) vehicle_type brand city dealer_dict in
  let run := advance 1 run in
  if kept dealer then (append_dealer dealer run, total_dealers + 1)
  else (add_invalid_data 1 run, total_dealers).

(** The body of the outer loop over [dealers_by_city.items()]. *)
Definition add_city (vehicle_type brand : string) (acc : Run * nat)
    (item : string * list Script.Candidate) : Run * nat :=
  let '(city, dealers) := item in
  if negb (Fetcher.truthy dealers) then acc
  else fold_left (add_dealer vehicle_type brand city) dealers acc.

Definition _scrape_brand_via_api (brand vehicle_type : string)
    (locations : list string) (run : Run) : nat * Run :=
  let dealers_by_city :=
    Fetcher.get_dealers_batch web (time run) brand locations in
  let run := advance (List.length locations) run in
  let '(run, total_dealers) :=
    fold_left (add_city vehicle_type brand) dealers_by_city (run, 0) in
  (total_dealers, add_successful_scrapes total_dealers run).

(** *** Aggregation *)

(** The dictionaries of a batch in the order the loops visit them, each with
    its city. *)
Definition batch_pairs (dealers_by_city : Fetcher.dict (list Script.Candidate))
  : list (string * Script.Candidate) :=
  flat_map (fun item => map (pair (fst item)) (snd item)) dealers_by_city.

(** The records built from them, the first at time [t]. *)
Fixpoint records_from (t : nat) (vehicle_type brand : string)
    (pairs : list (string * Script.Candidate)) : list Dealer.DealerData :=
  match pairs with
  | [] => []
  | (city, dealer_dict) :: rest =>
      to_dealer t vehicle_type brand city dealer_dict
      :: records_from (S t) vehicle_type brand rest
  end.

Definition dropped (dealer : Dealer.DealerData) : bool := negb (kept dealer).

(** The scraper and the count after the records [recs] went through the
    test. *)
Definition aggregated (recs : list Dealer.DealerData) (acc : Run * nat)
  : Run * nat :=
  let '(run, total_dealers) := acc in
  (advance (List.length recs)
     (add_invalid_data (List.length (filter dropped recs))
        (mkRun (dealers_data run ++ filter kept recs) (failed_scrapes run)
           (status run) (stats run) (time run))),
   total_dealers + List.length (filter kept recs)).

Lemma records_from_app t vehicle_type brand p1 p2 :
  records_from t vehicle_type brand (p1 ++ p2) =
  records_from t vehicle_type brand p1 ++
  records_from (t + List.length p1) vehicle_type brand p2.
Proof.
  revert t; induction p1 as [|[city d] p1 IH]; intros t; simpl.
  - rewrite Nat.add_0_r; reflexivity.
  - rewrite IH, Nat.add_succ_r; reflexivity.
Qed.

Lemma records_from_length t vehicle_type brand pairs :
  List.length (records_from t vehicle_type brand pairs) = List.length pairs.
Proof.
  revert t; induction pairs as [|[city d] rest IH]; intros t; simpl;
    [reflexivity | rewrite IH; reflexivity].
Qed.

Lemma acc_eq dd dd' fs st ta ss fc inv inv' re t t' (total total' : nat) :
  dd = dd' -> inv = inv' -> t = t' -> total = total' ->
  (mkRun dd fs st (Stats.make ta ss fc inv re) t, total) =
  (mkRun dd' fs st (Stats.make ta ss fc inv' re) t', total').
Proof. intros; subst; reflexivity. Qed.

Lemma aggregated_nil acc : aggregated [] acc = acc.
Proof.
  destruct acc as [[dd fs st [ta ss fc inv re] t] total].
  unfold aggregated, advance, add_invalid_data; simpl.
  apply acc_eq; [apply app_nil_r | lia | lia | lia].
Qed.

Lemma aggregated_time recs acc :
  time (fst (aggregated recs acc)) = time (fst acc) + List.length recs.
Proof. destruct acc as [run total]; reflexivity. Qed.

Lemma aggregated_app r1 r2 acc :
  aggregated (r1 ++ r2) acc = aggregated r2 (aggregated r1 acc).
Proof.
  destruct acc as [[dd fs st [ta ss fc inv re] t] total].
  unfold aggregated, advance, add_invalid_data; simpl.
  rewrite !filter_app, !length_app.
  apply acc_eq; [apply app_assoc | lia | lia | lia].
Qed.

Lemma add_dealer_aggregated vehicle_type brand city acc dealer_dict :
  add_dealer vehicle_type brand city acc dealer_dict =
  aggregated
    [to_dealer (time (fst acc)) vehicle_type brand city dealer_dict] acc.
Proof.
  destruct acc as [[dd fs st [ta ss fc inv re] t] total].
  unfold add_dealer, aggregated, dropped; simpl.
  destruct (kept _); simpl;
    unfold advance, add_invalid_data, append_dealer; simpl;
    apply acc_eq; try lia; rewrite ?app_nil_r; reflexivity.
Qed.

Lemma fold_add_dealer vehicle_type brand city dealers : forall acc,
  fold_left (add_dealer vehicle_type brand city) dealers acc =
  aggregated
    (records_from (time (fst acc)) vehicle_type brand
       (map (pair city) dealers)) acc.
Proof.
  induction dealers as [|d rest IH]; intros acc; simpl.
  - symmetry; apply aggregated_nil.
  - rewrite IH, add_dealer_aggregated.
    change (to_dealer (time (fst acc)) vehicle_type brand city d
            :: records_from (S (time (fst acc))) vehicle_type brand
                 (map (pair city) rest))
      with ([to_dealer (time (fst acc)) vehicle_type brand city d]
            ++ records_from (S (time (fst acc))) vehicle_type brand
                 (map (pair city) rest)).
    rewrite aggregated_app, aggregated_time; simpl.
    rewrite Nat.add_1_r; reflexivity.
Qed.

Lemma fold_add_city vehicle_type brand dealers_by_city : forall acc,
  fold_left (add_city vehicle_type brand) dealers_by_city acc =
  aggregated
    (records_from (time (fst acc)) vehicle_type brand
       (batch_pairs dealers_by_city)) acc.
Proof.
  induction dealers_by_city as [|[city dealers] rest IH]; intros acc.
  - symmetry; apply aggregated_nil.
  - assert (E : add_city vehicle_type brand acc (city, dealers) =
                aggregated
                  (records_from (time (fst acc)) vehicle_type brand
                     (map (pair city) dealers)) acc).
    { unfold add_city. destruct dealers as [|d ds]; [|apply fold_add_dealer].
      simpl. symmetry; apply aggregated_nil. }
    change (fold_left (add_city vehicle_type brand) ((city, dealers) :: rest)
              acc)
      with (fold_left (add_city vehicle_type brand) rest
              (add_city vehicle_type brand acc (city, dealers))).
    change (batch_pairs ((city, dealers) :: rest))
      with (map (pair city) dealers ++ batch_pairs rest).
    rewrite IH, records_from_app, aggregated_app, length_map.
    rewrite E, aggregated_time, records_from_length, length_map.
    reflexivity.
Qed.

(** C3, amended.  The records of a batch go through one test: a record that
    passes validation is kept; a record that fails it is kept when
    [validate_data] is off and dropped when it is on.  The kept records are
    appended to [dealers_data] in order, and their number is returned and
    added to [successful_scrapes]; the number of dropped records, and of
    these only, is added to [invalid_data]. *)
Theorem aggregation_counts (brand vehicle_type : string)
    (locations : list string) (run : Run) :
  let recs :=
    records_from (time run + List.length locations) vehicle_type brand
      (batch_pairs
         (Fetcher.get_dealers_batch web (time run) brand locations)) in
  let total_dealers :=
    fst (_scrape_brand_via_api brand vehicle_type locations run) in
  let run' := snd (_scrape_brand_via_api brand vehicle_type locations run) in
  dealers_data run' = dealers_data run ++ filter kept recs /\
  total_dealers = List.length (filter kept recs) /\
  Stats.successful_scrapes (stats run') =
    Stats.successful_scrapes (stats run) + List.length (filter kept recs) /\
  Stats.invalid_data (stats run') =
    Stats.invalid_data (stats run) + List.length (filter dropped recs) /\
  (forall dealer,
     kept dealer = fst (Dealer.is_valid dealer) || negb validate_data) /\
  (forall dealer,
     dropped dealer =
     negb (fst (Dealer.is_valid dealer)) && validate_data).
Proof.
  cbv zeta.
  assert (Hkept : forall dealer,
             kept dealer = fst (Dealer.is_valid dealer) || negb validate_data).
  { intros dealer; unfold kept.
    destruct (Dealer.is_valid dealer); reflexivity. }
  assert (Hdropped : forall dealer,
             dropped dealer =
             negb (fst (Dealer.is_valid dealer)) && validate_data).
  { intros dealer; unfold dropped; rewrite Hkept.
    destruct (fst (Dealer.is_valid dealer)), validate_data; reflexivity. }
  unfold _scrape_brand_via_api. rewrite fold_add_city.
  destruct run as [dd fs st [ta ss fc inv re] t].
  unfold aggregated, advance, add_invalid_data, add_successful_scrapes.
  cbn [fst snd dealers_data stats time failed_scrapes status
       Stats.successful_scrapes Stats.invalid_data Stats.total_attempts
       Stats.failed_scrapes Stats.retries].
  repeat split; auto.
Qed.

(** *** [_scrape_brand], before decoration *)

(** The cached cities, or a fresh discovery when there are none. *)
Definition all_cities (run : Run) : list string * Run :=
  let locations := cached_cities (time run) in
  let run := advance 1 run in
  if Fetcher.truthy locations then (locations, run)
  else
    (Cities.discover_all_cities (cities_response (time run)), advance 1 run).

Definition _scrape_brand_body (vehicle_type brand base_url : string)
    (config_locations : locations_setting) (run : Run)
  : outcome unit * Run :=
  match config_locations with
  | LocationsList locations =>
      (Returned tt,
       snd (_scrape_brand_via_api brand vehicle_type locations run))
  | LocationsAll | LocationsOther =>
      let '(locations, run) := all_cities run in
      if Fetcher.truthy locations
      then (Returned tt,
            snd (_scrape_brand_via_api brand vehicle_type locations run))
      else (Returned tt, run)
  end.

(** *** [_scrape_vehicle_type] *)

(** [KeyError(key)]: its [str] is the [repr] of the key. *)
Definition KeyError (key : string) : exception :=
  OtherException ("'" ++ key ++ "'")%string.

Definition brand_name (b : brand_config) : string :=
  match b with BrandName name => name | BrandDict name _ => name end.

Definition brand_locations (b : brand_config) : locations_setting :=
  match b with
  | BrandName _ => LocationsOther
  | BrandDict _ locations => locations
  end.

(** The [except Exception] handler of the loop. *)
Definition record_failure (vehicle_type brand : string) (e : exception)
    (run : Run) : Run :=
  append_failed
    (FailedScrape.make vehicle_type brand (str e) (clock (time run)))
    (advance 1 run).

(** The [try] statement of the loop, on what the call under it did. *)
Definition try_brand (vehicle_type brand : string) (r : retried) : Run :=
  match result r with
  | Returned _ => final r
  | Raised e => record_failure vehicle_type brand e (final r)
  end.

(** [_scrape_brand]: the body under the decorator. *)
Definition _scrape_brand (vehicle_type brand base_url : string)
    (config_locations : locations_setting) : Run -> retried :=
  retry (_scrape_brand_body vehicle_type brand base_url config_locations).

(** The body of the loop over the brands.  The argument
    [vehicle_config['base_url']] is evaluated inside the [try]: without the
    key the handler runs and [_scrape_brand] is not called. *)
Definition scrape_one_brand (vehicle_type : string) (cfg : vehicle_config)
    (run : Run) (b : brand_config) : Run :=
  match base_url cfg with
  | None =>
      record_failure vehicle_type (brand_name b) (KeyError "base_url") run
  | Some url =>
      try_brand vehicle_type (brand_name b)
        (_scrape_brand vehicle_type (brand_name b) url (brand_locations b)
           run)
  end.

(** The loop of [_scrape_vehicle_type] over the brands that remain. *)
Definition scrape_brands (vehicle_type : string) (cfg : vehicle_config)
    (remaining : list brand_config) (run : Run) : Run :=
  fold_left (scrape_one_brand vehicle_type cfg) remaining run.

Definition _scrape_vehicle_type (vehicle_type : string)
    (cfg : vehicle_config) (run : Run) : Run :=
  scrape_brands vehicle_type cfg (brands cfg) run.

(** The same loop around another function than the scraper's own body:
    the decorator and the handler do not depend on what they wrap. *)
Section Brands.
Variable scrape_brand :
  string -> string -> string -> locations_setting -> Run ->
  outcome unit * Run.

Definition decorated (vehicle_type brand base_url : string)
    (config_locations : locations_setting) : Run -> retried :=
  retry (scrape_brand vehicle_type brand base_url config_locations).

Definition one_brand (vehicle_type : string) (cfg : vehicle_config)
    (run : Run) (b : brand_config) : Run :=
  match base_url cfg with
  | None =>
      record_failure vehicle_type (brand_name b) (KeyError "base_url") run
  | Some url =>
      try_brand vehicle_type (brand_name b)
        (decorated vehicle_type (brand_name b) url (brand_locations b) run)
  end.

Definition brands_loop (vehicle_type : string) (cfg : vehicle_config)
    (remaining : list brand_config) (run : Run) : Run :=
  fold_left (one_brand vehicle_type cfg) remaining run.

Definition vehicle_type_loop (vehicle_type : string)
    (cfg : vehicle_config) (run : Run) : Run :=
  brands_loop vehicle_type cfg (brands cfg) run.

End Brands.

Lemma vehicle_type_loop_own (vehicle_type : string) (cfg : vehicle_config)
    (run : Run) :
  vehicle_type_loop _scrape_brand_body vehicle_type cfg run =
  _scrape_vehicle_type vehicle_type cfg run.
Proof. reflexivity. Qed.



End Scraper.

(** *** An invalid record that is kept *)

(** A site that shows one card, named and without an address, whatever the
    address asked for. *)
Definition one_card_site : Browser.site :=
  fun _ _ => Browser.Document [Script.named_card "ABCD Motors"].

(** C3, as stated, fails.  With [validate_data] off and the empty string as
    the only location, the record built from the card has no address, city
    or location: it fails validation, is kept, is counted in
    [successful_scrapes], and [invalid_data] stays at 0. *)
Lemma invalid_record_kept_uncounted :
  let run :=
    snd (_scrape_brand_via_api one_card_site
           (fun _ => "2024-01-01 00:00:00") false "bmw" "cars"
           [EmptyString] init) in
  exists dealer,
    dealers_data run = [dealer] /\
    Dealer.is_valid dealer =
      (false, ["Missing address, city, and location"]) /\
    Stats.invalid_data (stats run) = Stats.invalid_data (stats init) /\
    Stats.successful_scrapes (stats run) = 1.
Proof. vm_compute. eexists; repeat split. Qed.

(** *** A brand whose every attempt times out *)

(** A function that raises playwright's timeout for the brand [bmw] and
    returns for every other brand, in the place of the scraper's body. *)
Definition bmw_times_out (vehicle_type brand url : string)
    (config_locations : locations_setting) (run : Run)
  : outcome unit * Run :=
  if String.eqb brand "bmw"
  then (Raised (PlaywrightTimeout "Timeout 15000ms exceeded."), run)
  else (Returned tt, run).

Definition two_brands : vehicle_config :=
  mkVehicleConfig (Some "https://www.zigwheels.com/dealers")
    [BrandName "bmw"; BrandName "audi"].


Example retry_exhausted :
  let r :=
    decorated bmw_times_out "cars" "bmw" "https://www.zigwheels.com/dealers"
      LocationsOther init in
  List.length (attempts r) = 3 /\
  waited r = [4; 4]%Z /\
  result r =
    Raised (RetryError (PlaywrightTimeout "Timeout 15000ms exceeded.")).
Proof. vm_compute. repeat split. Qed.

Example run_goes_on_after_failure :
  let clock := fun _ : nat => "2024-01-01T00:00:00" in
  let repr := fun _ : exception => "<Future raised TimeoutError>" in
  let run :=
    vehicle_type_loop clock repr bmw_times_out "cars" two_brands init in
  failed_scrapes run =
    [FailedScrape.make "cars" "bmw"
       "RetryError[<Future raised TimeoutError>]" "2024-01-01T00:00:00"] /\
  dealers_data run = [].
Proof. vm_compute. split; reflexivity. Qed.


End Orchestrator.

(** ** Facts about the text primitives *)

Module TextFacts.

Section Stripping.
Variable space : ascii -> bool.

Lemma lstrip_head (s : string) :
  match Text.lstrip space s with
  | EmptyString => True
  | String c _ => space c = false
  end.
Proof.
  induction s as [|c r IH]; simpl; [exact I|].
  destruct (space c) eqn:E; [exact IH | simpl; exact E].
Qed.

Lemma rstrip_keeps_head (c : ascii) (r : string) :
  space c = false ->
  Text.rstrip space (String c r) = String c (Text.rstrip space r).
Proof. intros E; simpl; rewrite E; reflexivity. Qed.

Lemma lstrip_fixed (s : string) :
  match s with EmptyString => True | String c _ => space c = false end ->
  Text.lstrip space s = s.
Proof. destruct s as [|c r]; simpl; [reflexivity | intros ->; reflexivity]. Qed.

Lemma rstrip_twice (s : string) :
  Text.rstrip space (Text.rstrip space s) = Text.rstrip space s.
Proof.
  induction s as [|c r IH]; simpl; [reflexivity|].
  destruct (space c && Text.is_empty (Text.rstrip space r)) eqn:E;
    [reflexivity|].
  simpl; rewrite IH, E; reflexivity.
Qed.

Lemma rstrip_last (s : string) (c : ascii) :
  Location.last_char (Text.rstrip space s) = Some c -> space c = false.
Proof.
  revert c; induction s as [|d r IH]; intros c; simpl; [discriminate|].
  destruct (space d) eqn:Ed; simpl.
  - destruct (Text.rstrip space r) as [|e t] eqn:Er; simpl; [discriminate|].
    specialize (IH c); simpl in IH.
    destruct (Location.last_char t); intros H; apply IH; exact H.
  - destruct (Location.last_char (Text.rstrip space r)) as [e|] eqn:El.
    + intros H; apply IH; exact H.
    + intros H; injection H as <-; exact Ed.
Qed.

Lemma strip_head (s : string) (c : ascii) :
  Location.head (Text.strip_with space s) = Some c -> space c = false.
Proof.
  unfold Text.strip_with.
  pose proof (lstrip_head s) as H.
  destruct (Text.lstrip space s) as [|d r]; [discriminate|].
  rewrite (rstrip_keeps_head d r H); simpl.
  intros E; injection E as <-; exact H.
Qed.

Lemma strip_last (s : string) (c : ascii) :
  Location.last_char (Text.strip_with space s) = Some c -> space c = false.
Proof. apply rstrip_last. Qed.

Lemma strip_twice (s : string) :
  Text.strip_with space (Text.strip_with space s) = Text.strip_with space s.
Proof.
  unfold Text.strip_with.
  rewrite (lstrip_fixed (Text.rstrip space (Text.lstrip space s))).
  - apply rstrip_twice.
  - pose proof (lstrip_head s) as H.
    destruct (Text.lstrip space s) as [|d r]; [exact I|].
    rewrite (rstrip_keeps_head d r H); exact H.
Qed.

End Stripping.

Lemma lower_char_not_upper (c : ascii) :
  Text.is_upper (Text.lower_char c) = false.
Proof. destruct c as [[] [] [] [] [] [] [] []]; reflexivity. Qed.

Lemma lower_char_twice (c : ascii) :
  Text.lower_char (Text.lower_char c) = Text.lower_char c.
Proof. destruct c as [[] [] [] [] [] [] [] []]; reflexivity. Qed.

Lemma lower_twice (s : string) : Text.lower (Text.lower s) = Text.lower s.
Proof.
  induction s as [|c r IH]; simpl; [reflexivity|].
  rewrite lower_char_twice, IH; reflexivity.
Qed.

Lemma lower_length (s : string) :
  String.length (Text.lower s) = String.length s.
Proof. induction s as [|c r IH]; simpl; [reflexivity | rewrite IH; reflexivity]. Qed.

Lemma lower_char_space (c : ascii) :
  Text.py_space (Text.lower_char c) = Text.py_space c.
Proof. destruct c as [[] [] [] [] [] [] [] []]; reflexivity. Qed.

End TextFacts.

(** ** The cleaned fields of a record *)

Module DealerFacts.

(** A field without white space at either end. *)
Definition tidy (f : string) : Prop :=
  Text.strip f = f /\
  (forall c, Location.head f = Some c -> Text.py_space c = false) /\
  (forall c, Location.last_char f = Some c -> Text.py_space c = false).

Lemma clean_field_tidy (value : string) : tidy (Dealer.clean_field value).
Proof.
  unfold Dealer.clean_field, tidy.
  destruct (Text.mem value _).
  - split; [reflexivity|]. split; intros c H; discriminate H.
  - split; [apply TextFacts.strip_twice|].
    split; intros c H.
    + apply (TextFacts.strip_head _ _ _ H).
    + apply (TextFacts.strip_last _ _ _ H).
Qed.

(** X1.  After [__post_init__] each of the seven cleaned fields is free of
    white space at both ends and unchanged by another [strip]; the vehicle
    type, the brand, the location and the source address are stored as they
    were given. *)
Theorem post_init_fields_tidy (now : string) (d : Dealer.DealerData) :
  let d' := Dealer.__post_init__ now d in
  Forall tidy
    [Dealer.dealer_name d'; Dealer.address d'; Dealer.phone d';
     Dealer.email d'; Dealer.city d'; Dealer.state d'; Dealer.pincode d'] /\
  Dealer.vehicle_type d' = Dealer.vehicle_type d /\
  Dealer.brand d' = Dealer.brand d /\
  Dealer.location d' = Dealer.location d /\
  Dealer.source_url d' = Dealer.source_url d.
Proof.
  cbv zeta; split; [|repeat split].
  repeat constructor; apply clean_field_tidy.
Qed.

End DealerFacts.

(** ** The field cleaners of the extractor *)

Module CleaningFacts.

Lemma before_char_free (sep : ascii) (s : string) :
  Text.has_char sep (Text.before_char sep s) = false.
Proof.
  induction s as [|c r IH]; simpl; [reflexivity|].
  destruct (Ascii.eqb c sep) eqn:E; simpl; [reflexivity|].
  rewrite Ascii.eqb_sym, E, IH; reflexivity.
Qed.

Lemma before_char_prefix (sep : ascii) (s : string) :
  exists rest : string,
    s = (Text.before_char sep s ++ rest)%string /\
    (rest = EmptyString \/ Location.head rest = Some sep).
Proof.
  induction s as [|c r IH]; simpl.
  - exists EmptyString; auto.
  - destruct (Ascii.eqb_spec c sep) as [->|Hne].
    + exists (String sep r); simpl; auto.
    + destruct IH as [rest [Hr Hs]]; exists rest; simpl.
      split; [congruence | exact Hs].
Qed.

Lemma before_char_head (sep : ascii) (s : string) (c : ascii) :
  Location.head (Text.before_char sep s) = Some c -> Location.head s = Some c.
Proof.
  destruct s as [|d r]; simpl; [discriminate|].
  destruct (Ascii.eqb d sep); simpl; [discriminate | auto].
Qed.

(** X2.  [_clean_name] returns the first line of the stripped name: a part
    of [name.strip()] from its start, followed there by a newline or by
    nothing, holding no newline and not starting with white space. *)
Theorem clean_name_first_line (name : string) :
  let r := Cleaning._clean_name name in
  (exists rest : string,
     Text.strip name = (r ++ rest)%string /\
     (rest = EmptyString \/ Location.head rest = Some Cleaning.newline)) /\
  Text.has_char Cleaning.newline r = false /\
  (forall c, Location.head r = Some c -> Text.py_space c = false).
Proof.
  cbv zeta; unfold Cleaning._clean_name.
  destruct (Text.is_empty name) eqn:E.
  - apply Text.is_empty_true in E; subst name.
    split; [exists EmptyString; auto|].
    split; [reflexivity | intros c H; discriminate H].
  - split; [apply before_char_prefix|].
    split; [apply before_char_free|].
    intros c H; apply before_char_head in H.
    apply (TextFacts.strip_head _ _ _ H).
Qed.

(** X3.  [_clean_email] returns either nothing or the stripped input, and
    the latter only when it holds an at sign with a dot somewhere after the
    last one; cleaning a cleaned address changes nothing. *)
Theorem clean_email_shape (email : string) :
  let r := Cleaning._clean_email email in
  (r = EmptyString \/
   r = Text.strip email /\ Text.has_char "@" r = true /\
   Text.has_char "." (Text.after_last_char "@" r) = true) /\
  Cleaning._clean_email r = r.
Proof.
  cbv zeta.
  assert (H : Cleaning._clean_email email = EmptyString \/
              Cleaning._clean_email email = Text.strip email /\
              Text.has_char "@" (Cleaning._clean_email email) = true /\
              Text.has_char "."
                (Text.after_last_char "@" (Cleaning._clean_email email))
              = true).
  { unfold Cleaning._clean_email.
    destruct (Text.is_empty email); [left; reflexivity|].
    destruct (Text.has_char "@" (Text.strip email)) eqn:E1; simpl;
      [|left; reflexivity].
    destruct (Text.has_char "." _) eqn:E2; [|left; reflexivity].
    right; auto. }
  split; [exact H|].
  destruct H as [-> | [Hr [Hat Hdot]]]; [reflexivity|].
  unfold Cleaning._clean_email at 1.
  destruct (Cleaning._clean_email email) as [|c t] eqn:Er; [reflexivity|].
  simpl Text.is_empty; cbv iota.
  assert (Hs : Text.strip (String c t) = String c t).
  { rewrite Hr; apply TextFacts.strip_twice. }
  rewrite Hs, Hat, Hdot; reflexivity.
Qed.

End CleaningFacts.

(** ** [utils/helpers.py] *)

Module Helpers.

(** [clean_text] *)
Definition clean_text (text : string) : string :=
  if Text.is_empty text || Text.mem text ["N/A"; "NA"; "n/a"]
  then EmptyString
  else Text.strip text.

(** [normalize_location] *)
Definition normalize_location (location : string) : string :=
  Text.replace_char "_" "-" (Text.replace_char " " "-" (Text.lower location)).

(** [format_phone]: [''.join(filter(str.isdigit, phone))] *)
Definition format_phone (phone : string) : string :=
  if Text.is_empty phone then EmptyString
  else Text.filter_chars Text.str_isdigit phone.

(** What [normalize_location] does to one character. *)
Definition normalize_char (c : ascii) : ascii :=
  let c := Text.lower_char c in
  let c := if Ascii.eqb c " " then "-"%char else c in
  if Ascii.eqb c "_" then "-"%char else c.

Lemma normalize_location_chars (location : string) :
  normalize_location location = Text.map_chars normalize_char location.
Proof.
  unfold normalize_location, Text.replace_char.
  induction location as [|c r IH]; simpl; [reflexivity|].
  rewrite IH; reflexivity.
Qed.

Lemma normalize_char_twice (c : ascii) :
  normalize_char (normalize_char c) = normalize_char c.
Proof. destruct c as [[] [] [] [] [] [] [] []]; reflexivity. Qed.

(** A character a normalized location can hold. *)
Definition slug_char (c : ascii) : bool :=
  negb (Ascii.eqb c " " || Ascii.eqb c "_" || Text.is_upper c).

Lemma normalize_char_slug (c : ascii) : slug_char (normalize_char c) = true.
Proof. destruct c as [[] [] [] [] [] [] [] []]; reflexivity. Qed.

(** X4.  [normalize_location] leaves no space, no underscore and none of
    the letters A to Z in its result, and changes nothing when applied
    again. *)
Theorem normalize_location_slug (location : string) :
  Text.all_chars slug_char (normalize_location location) = true /\
  normalize_location (normalize_location location) =
    normalize_location location.
Proof.
  rewrite !normalize_location_chars.
  induction location as [|c r [IH1 IH2]]; simpl; [auto|].
  rewrite IH1, IH2, normalize_char_slug, normalize_char_twice; auto.
Qed.

(** A decimal digit is a digit for [str.isdigit]; the characters
    [_clean_phone] keeps are digits for [str.isdigit] only when they are
    decimal digits. *)
Lemma digit_isdigit (c : ascii) :
  Text.is_digit c = true -> Text.str_isdigit c = true.
Proof. unfold Text.str_isdigit; intros ->; reflexivity. Qed.

Lemma phone_char_isdigit (c : ascii) :
  Cleaning.phone_char c = true -> Text.str_isdigit c = Text.is_digit c.
Proof.
  destruct c as [[] [] [] [] [] [] [] []]; vm_compute; congruence.
Qed.

Lemma not_phone_char_digit (c : ascii) :
  Cleaning.phone_char c = false -> Text.is_digit c = false.
Proof.
  unfold Cleaning.phone_char; intros H.
  destruct (Text.is_digit c); [discriminate H | reflexivity].
Qed.

Lemma filter_isdigit_of_phone_chars (s : string) :
  Text.filter_chars Text.str_isdigit
    (Text.filter_chars Cleaning.phone_char s) =
  Text.filter_chars Text.is_digit s.
Proof.
  induction s as [|c r IH]; simpl; [reflexivity|].
  destruct (Cleaning.phone_char c) eqn:E; simpl.
  - rewrite (phone_char_isdigit c E), IH; reflexivity.
  - rewrite (not_phone_char_digit c E); exact IH.
Qed.

Lemma format_phone_filter (phone : string) :
  format_phone phone = Text.filter_chars Text.str_isdigit phone.
Proof. destruct phone; reflexivity. Qed.

Lemma decimal_digits_fewer (s : string) :
  String.length (Text.filter_chars Text.is_digit s) <=
  String.length (Text.filter_chars Text.str_isdigit s).
Proof.
  induction s as [|c r IH]; simpl; [lia|].
  destruct (Text.is_digit c) eqn:E.
  - rewrite (digit_isdigit c E); simpl; lia.
  - destruct (Text.str_isdigit c); simpl; lia.
Qed.

(** X5.  [format_phone] returns only characters [str.isdigit] accepts and
    changes nothing when applied again.  Applied to a phone that went
    through the extractor's [_clean_phone], it returns the decimal digits of
    the phone, which are never more than what it returns on the phone
    itself: a superscript digit is kept by [format_phone] and removed by
    [_clean_phone]. *)
Theorem format_phone_digits (phone : string) :
  Text.all_chars Text.str_isdigit (format_phone phone) = true /\
  format_phone (format_phone phone) = format_phone phone /\
  format_phone (Cleaning._clean_phone phone) =
    Text.filter_chars Text.is_digit phone /\
  String.length (format_phone (Cleaning._clean_phone phone)) <=
    String.length (format_phone phone) /\
  (let superscripts :=
     String (ascii_of_nat 178) (String (ascii_of_nat 185) "3") in
   format_phone superscripts = superscripts /\
   format_phone (Cleaning._clean_phone superscripts) = "3").
Proof.
  rewrite !format_phone_filter, Cleaning.clean_phone_filter.
  split; [apply Cleaning.filter_chars_all|].
  split; [apply Cleaning.filter_chars_fixed, Cleaning.filter_chars_all|].
  split; [apply filter_isdigit_of_phone_chars|].
  split; [|split; reflexivity].
  rewrite filter_isdigit_of_phone_chars. apply decimal_digits_fewer.
Qed.

(** X6.  [clean_text] and the cleaning of a record field give the same
    result on every string. *)
Theorem clean_text_is_clean_field (text : string) :
  clean_text text = Dealer.clean_field text.
Proof.
  unfold clean_text, Dealer.clean_field.
  destruct text as [|c r]; [reflexivity|].
  simpl Text.is_empty; cbv iota.
  rewrite orb_false_l; reflexivity.
Qed.

End Helpers.

(** ** [utils/validators.py] and [core/config.py] *)

Module Config.
Import Exceptions.

(** A configuration dictionary: each key of the default configuration is
    present with a value or absent.  The timeout, when present, is an
    integer and the output format a string. *)
Record config := mkConfig {
  vehicle_types : option (list (string * Orchestrator.vehicle_config));
  locations : option (list string);
  output_format : option string;
  headless : option bool;
  timeout : option Z;
  max_scroll : option nat;
  max_retries : option nat;
  user_agent : option string;
  save_checkpoint_interval : option nat;
  validate_data : option bool;
  skip_invalid : option bool;
  location_discovery_phase : option nat;
  use_api_if_available : option bool
}.

Definition present {A} (o : option A) : bool :=
  match o with Some _ => true | None => false end.

(** [validate_config] *)
Definition validate_config (c : config) : bool * list string :=
  let errors := [] in
  let errors :=
    Dealer.append_if (negb (present (vehicle_types c)))
      "Missing required config key: vehicle_types" errors in
  let errors :=
    Dealer.append_if (negb (present (output_format c)))
      "Missing required config key: output_format" errors in
  let errors :=
    Dealer.append_if (negb (present (timeout c)))
      "Missing required config key: timeout" errors in
  let errors :=
    Dealer.append_if
      (match timeout c with Some t => t | None => 0%Z end <=? 0)%Z
      "Timeout must be positive" errors in
  let errors :=
    Dealer.append_if
      (negb match output_format c with
            | Some f => Text.mem f ["excel"; "csv"; "json"]
            | None => false
            end)
      "Invalid output format" errors in
  (Nat.eqb (List.length errors) 0, errors).

Definition brand_names (names : list string)
  : list Orchestrator.brand_config :=
  map Orchestrator.BrandName names.

(** [ConfigManager._default_config] *)
Definition _default_config : config :=
  mkConfig
    (Some
       [("cars",
         Orchestrator.mkVehicleConfig
           (Some "https://www.zigwheels.com/dealers")
           (brand_names ["maruti-suzuki"; "tata"; "kia"; "toyota";
                         "hyundai"; "mahindra"]));
        ("bikes",
         Orchestrator.mkVehicleConfig
           (Some "https://www.zigwheels.com/bikes/dealers")
           (brand_names ["hero"; "honda"; "bajaj"; "tvs"; "yamaha";
                         "suzuki"]))])
    (Some ["mumbai"; "delhi"; "bangalore"; "hyderabad"; "pune"; "chennai"])
    (Some "excel") (Some true) (Some 15000%Z) (Some 5) (Some 3)
    (Some "Mozilla/5.0 (Windows NT 10.0; Win64; x64) AppleWebKit/537.36")
    (Some 50) (Some true) (Some true) (Some 2) (Some true).

(** [IllTyped]: [json.load] returns a value [validate_config] cannot test,
    one that is not an object or whose [timeout] is not a number;
    [message] is the text of the [AttributeError] or [TypeError] that
    [config.get] or the comparison with 0 then raises. *)


Lemma append_if_nil (b : bool) (msg : string) (errors : list string) :
  Dealer.append_if b msg errors = [] <-> b = false /\ errors = [].
Proof.
  unfold Dealer.append_if; destruct b; split.
  - intros H; destruct errors; discriminate H.
  - intros [H _]; discriminate H.
  - auto.
  - intros [_ H]; exact H.
Qed.

Lemma no_errors (errors : list string) :
  Nat.eqb (List.length errors) 0 = true <-> errors = [].
Proof. destruct errors; simpl; split; congruence. Qed.

Lemma validate_config_true (c : config) :
  fst (validate_config c) = true <->
  present (vehicle_types c) = true /\
  (exists t, timeout c = Some t /\ (0 < t)%Z) /\
  (exists f, output_format c = Some f /\
             Text.mem f ["excel"; "csv"; "json"] = true).
Proof.
  unfold validate_config; cbv zeta; cbn [fst].
  rewrite no_errors, !append_if_nil.
  destruct (vehicle_types c) as [vt|], (output_format c) as [f|],
           (timeout c) as [t|]; cbn [present negb];
    try (split;
         [ intros H; decompose [and] H; discriminate
         | intros [H1 [[t' [H2 _]] [f' [H3 _]]]]; discriminate ]).
  rewrite negb_false_iff, Z.leb_gt; split.
  - intros [Hf [Ht _]]; split; [reflexivity|]; split; eauto.
  - intros [_ [[t' [H2 Ht]] [f' [H3 Hf]]]].
    injection H2 as <-; injection H3 as <-; auto 10.
Qed.






End Config.

(** ** Facts about dictionaries and about [save] *)

Module SaverFacts.
Import Exceptions.

Lemma dict_get_set_same {V} (k : string) (v : V) (d : Fetcher.dict V) :
  Fetcher.dict_get k (Fetcher.dict_set k v d) = Some v.
Proof.
  induction d as [|[k0 v0] rest IH]; simpl.
  - rewrite String.eqb_refl; reflexivity.
  - destruct (String.eqb k0 k) eqn:E; simpl.
    + rewrite String.eqb_refl; reflexivity.
    + rewrite E; exact IH.
Qed.

Lemma dict_get_set_other {V} (k k' : string) (v : V) (d : Fetcher.dict V) :
  k' <> k ->
  Fetcher.dict_get k' (Fetcher.dict_set k v d) = Fetcher.dict_get k' d.
Proof.
  intros Hne; induction d as [|[k0 v0] rest IH]; simpl.
  - destruct (String.eqb_spec k k'); [congruence | reflexivity].
  - destruct (String.eqb_spec k0 k) as [->|Hk]; simpl.
    + destruct (String.eqb_spec k k'); [congruence | reflexivity].
    + destruct (String.eqb k0 k'); [reflexivity | exact IH].
Qed.

(** X9.  [save] touches at most one path, inside the output directory.  On
    success the dealers can be read back at the returned path and every
    other file is as before; when it returns [None] there was nothing to
    save and nothing changed.  When it raises, it raises [ScraperException]
    and either nothing changed or, the writer having failed after it opened
    its file, that one path holds the unfinished file, which [save] does
    not remove. *)
Theorem save_writes_once (timestamp : string)
    (write_error : option Saver.write_failure)
    (dealers : list Dealer.DealerData) (format_type : string)
    (custom_filename : option string) (output_dir : Saver.directory) :
  let '(outcome, after) :=
    Saver.save timestamp write_error dealers format_type custom_filename
      output_dir in
  match outcome with
  | Returned (Some path) =>
      dealers <> [] /\ write_error = None /\
      String.prefix "output/" path = true /\
      (exists fmt,
         Saver.parse_format format_type = Some fmt /\
         Fetcher.dict_get path after = Some (Saver.mkTable fmt dealers)) /\
      (forall other,
         other <> path ->
         Fetcher.dict_get other after = Fetcher.dict_get other output_dir)
  | Returned None => dealers = [] /\ after = output_dir
  | Raised e =>
      dealers <> [] /\
      (exists message,
         e = ScraperException ("Data save failed: " ++ message)%string) /\
      (after = output_dir \/
       exists failure path,
         write_error = Some failure /\ Saver.opened failure = true /\
         String.prefix "output/" path = true /\
         Fetcher.dict_get path after = Some Saver.Unfinished /\
         forall other,
           other <> path ->
           Fetcher.dict_get other after = Fetcher.dict_get other output_dir)
  end.
Proof.
  unfold Saver.save.
  destruct dealers as [|d ds]; [split; reflexivity|].
  cbn [Fetcher.truthy negb].
  assert (Hne : d :: ds <> []) by discriminate.
  destruct (_ && _); [split; [exact Hne|]; split; eauto|].
  destruct (Saver.parse_format format_type) as [fmt|];
    [|split; [exact Hne|]; split; eauto].
  destruct write_error as [[m was_opened]|].
  - split; [exact Hne|]. split; [eauto|].
    cbn [Saver.opened]. destruct was_opened; [right | left; reflexivity].
    eexists; eexists. split; [reflexivity|]. split; [reflexivity|].
    split; [apply Location.prefix_iff; eexists; reflexivity|].
    split; [apply dict_get_set_same|].
    intros other Hother; apply dict_get_set_other, Hother.
  - split; [exact Hne|]. split; [reflexivity|].
    split; [apply Location.prefix_iff; eexists; reflexivity|].
    split.
    + exists fmt; split; [reflexivity | apply dict_get_set_same].
    + intros other Hother; apply dict_get_set_other, Hother.
Qed.



Definition separator (c : ascii) : bool :=
  Ascii.eqb c "/" || Ascii.eqb c (ascii_of_nat 92).




(** X11.  A configuration accepted by [validate_config] names a format that
    [save] accepts: with records to save, no custom file name and a working
    writer, saving in the configured format returns a path. *)
Theorem validated_format_saves (c : Config.config) (timestamp : string)
    (dealer : Dealer.DealerData) (dealers : list Dealer.DealerData)
    (output_dir : Saver.directory) :
  fst (Config.validate_config c) = true ->
  exists format_type path,
    Config.output_format c = Some format_type /\
    fst (Saver.save timestamp None (dealer :: dealers) format_type None
           output_dir) = Returned (Some path).
Proof.
  intros H; apply Config.validate_config_true in H.
  destruct H as [_ [_ [f [Hf Hmem]]]].
  exists f. unfold Saver.save, Saver.parse_format.
  cbn [Fetcher.truthy negb andb Text.mem existsb] in *.
  destruct (String.eqb f "excel"); [eexists; split; [exact Hf|reflexivity]|].
  destruct (String.eqb f "csv"); [eexists; split; [exact Hf|reflexivity]|].
  destruct (String.eqb f "json"); [eexists; split; [exact Hf|reflexivity]|].
  discriminate Hmem.
Qed.

(** The default configuration. *)
Lemma validated_format_saves_witness :
  fst (Config.validate_config Config._default_config) = true /\
  exists format_type path,
    Config.output_format Config._default_config = Some format_type /\
    fst (Saver.save "20240101_000000" None [Dealer.single_letter_dealer]
           format_type None []) = Returned (Some path).
Proof.
  split; [reflexivity|].
  apply (validated_format_saves Config._default_config "20240101_000000"
           Dealer.single_letter_dealer [] []).
  reflexivity.
Defined.

End SaverFacts.

(** ** [save_failed_scrapes] and [save_data] *)

Module Persist.
Import Exceptions.

(** A file of the output directory: a table of dealers or a list of failed
    scrapes. *)
Inductive written :=
| Table (t : Saver.table)
| FailureLog (entries : list Orchestrator.FailedScrape.t)
| UnfinishedLog.

(** A write of the log that raises: the exception, and whether the file had
    been opened for writing before. *)
Record log_failure := mkLogFailure {
  log_exception : exception;
  log_opened : bool
}.

Definition disk := Fetcher.dict written.

(** [self.output_dir / filename]: an absolute name replaces the directory. *)
Definition in_output_dir (filename : string) : string :=
  if String.prefix "/" filename then filename
  else ("output/" ++ filename)%string.

(** [save_failed_scrapes].  [write_error] is what opening or writing the
    file does when it raises; nothing catches the exception and nothing
    removes the file. *)
Definition save_failed_scrapes (timestamp : string)
    (write_error : option log_failure)
    (failed_scrapes : list Orchestrator.FailedScrape.t)
    (filename : option string) (d : disk) : outcome unit * disk :=
  if negb (Fetcher.truthy failed_scrapes) then (Returned tt, d)
  else
    let filename :=
      match filename with
      | Some name =>
          if Text.is_empty name
          then ("failed_scrapes_" ++ timestamp ++ ".json")%string
          else name
      | None => ("failed_scrapes_" ++ timestamp ++ ".json")%string
      end in
    match write_error with
    | Some failure =>
        (Raised (log_exception failure),
         if log_opened failure
         then Fetcher.dict_set (in_output_dir filename) UnfinishedLog d
         else d)
    | None =>
        (Returned tt,
         Fetcher.dict_set (in_output_dir filename) (FailureLog failed_scrapes)
           d)
    end.

(** The files [save] wrote, put on the disk. *)
Definition replay (writes : Saver.directory) (d : disk) : disk :=
  fold_left (fun d w => Fetcher.dict_set (fst w) (Table (snd w)) d) writes d.

(** [ZigWheelsProductionScraper.save_data]. *)
Definition save_data (timestamp log_timestamp : string)
    (write_error : option Saver.write_failure)
    (log_error : option log_failure)
    (config : Config.config) (run : Orchestrator.Run)
    (custom_filename : option string) (d : disk)
  : outcome (option string) * disk :=
  let format_type :=
    match Config.output_format config with
    | Some f => f
    | None => "excel"
    end in
  let '(saved, writes) :=
    Saver.save timestamp write_error (Orchestrator.dealers_data run)
      format_type custom_filename [] in
  let d := replay writes d in
  match saved with
  | Raised e => (Raised e, d)
  | Returned output_file =>
      if Fetcher.truthy (Orchestrator.failed_scrapes run) then
        match
          save_failed_scrapes log_timestamp log_error
            (Orchestrator.failed_scrapes run) None d
        with
        | (Raised e, d) => (Raised e, d)
        | (Returned _, d) => (Returned output_file, d)
        end
      else (Returned output_file, d)
  end.

(** What [save] does to a directory is the replay of what it does to the
    empty one. *)
Lemma save_from_empty (timestamp : string)
    (write_error : option Saver.write_failure)
    (dealers : list Dealer.DealerData) (format_type : string)
    (custom_filename : option string) (output_dir : Saver.directory) :
  Saver.save timestamp write_error dealers format_type custom_filename
    output_dir =
  (fst (Saver.save timestamp write_error dealers format_type
          custom_filename []),
   fold_left (fun d w => Fetcher.dict_set (fst w) (snd w) d)
     (snd (Saver.save timestamp write_error dealers format_type
             custom_filename []))
     output_dir).
Proof.
  unfold Saver.save.
  destruct (negb (Fetcher.truthy dealers)); [reflexivity|].
  destruct (_ && _); [reflexivity|].
  destruct (Saver.parse_format format_type); [|reflexivity].
  destruct write_error as [[m []]|]; reflexivity.
Qed.

(** X12.  [save_data] writes the failed scrapes only after the dealers were
    saved without an exception: when [save] raises, [save_data] raises the
    same, whatever the failed scrapes and the state of the log writer are,
    and the disk holds what [save] left, which is nothing new unless the
    writer of the dealers failed after it opened its file; when there are no
    dealers but there are failures, it returns [None] and the log of the
    failures is on the disk; and the log goes where its name says, no test
    being made on that name. *)
Theorem save_data_failure_log (timestamp log_timestamp : string)
    (write_error : option Saver.write_failure) (config : Config.config)
    (run : Orchestrator.Run) (custom_filename : option string) (d : disk) :
  let format_type :=
    match Config.output_format config with
    | Some f => f
    | None => "excel"
    end in
  let saved :=
    Saver.save timestamp write_error (Orchestrator.dealers_data run)
      format_type custom_filename [] in
  (forall e log_error,
     fst saved = Raised e ->
     save_data timestamp log_timestamp write_error log_error config run
       custom_filename d = (Raised e, replay (snd saved) d) /\
     (snd saved = [] \/
      exists failure path,
        write_error = Some failure /\ Saver.opened failure = true /\
        snd saved = [(path, Saver.Unfinished)])) /\
  (Orchestrator.dealers_data run = [] ->
   Orchestrator.failed_scrapes run <> [] ->
   save_data timestamp log_timestamp write_error None config run
     custom_filename d =
   (Returned None,
    Fetcher.dict_set
      ("output/failed_scrapes_" ++ log_timestamp ++ ".json")%string
      (FailureLog (Orchestrator.failed_scrapes run)) d)) /\
  (forall entry entries name,
     name <> EmptyString -> String.prefix "/" name = false ->
     save_failed_scrapes log_timestamp None (entry :: entries) (Some name) d =
     (Returned tt,
      Fetcher.dict_set ("output/" ++ name)%string
        (FailureLog (entry :: entries)) d)).
Proof.
  cbv zeta; split; [|split].
  - intros e log_error H; split.
    + unfold save_data.
      destruct (Saver.save _ _ _ _ _ _) as [saved writes].
      simpl in H; subst saved; reflexivity.
    + revert H; unfold Saver.save.
      destruct (negb _); [discriminate|].
      destruct (_ && _); [left; reflexivity|].
      destruct (Saver.parse_format _); [|left; reflexivity].
      destruct write_error as [[m []]|]; cbn [fst snd Saver.opened].
      * intros _; right; eexists; eexists; repeat split.
      * intros _; left; reflexivity.
      * discriminate.
  - intros Hd Hf; unfold save_data; rewrite Hd.
    cbn [Saver.save Fetcher.truthy negb replay fold_left].
    destruct (Orchestrator.failed_scrapes run) as [|f fs]; [congruence|].
    reflexivity.
  - intros entry entries name Hname Hrel.
    unfold save_failed_scrapes, in_output_dir.
    destruct name as [|c name]; [congruence|].
    cbn [Fetcher.truthy negb Text.is_empty]. rewrite Hrel; reflexivity.
Qed.

Lemma save_data_failure_log_witness :
  let failure :=
    Orchestrator.FailedScrape.make "cars" "bmw" "Timeout 15000ms exceeded."
      "2024-01-01T00:00:00" in
  let run :=
    Orchestrator.mkRun [] [failure] Orchestrator.COMPLETED
      (Orchestrator.Stats.make 1 0 1 0 2) 0 in
  save_data "20240101_000000" "20240101_000001" None None
    Config._default_config run None [] =
  (Returned None,
   [("output/failed_scrapes_20240101_000001.json", FailureLog [failure])]).
Proof.
  cbv zeta.
  apply (proj1 (proj2 (save_data_failure_log "20240101_000000"
                         "20240101_000001" None Config._default_config
                         (Orchestrator.mkRun [] _ Orchestrator.COMPLETED
                            (Orchestrator.Stats.make 1 0 1 0 2) 0)
                         None [])));
    [reflexivity | discriminate].
Defined.

End Persist.

(** ** Facts about the addresses and the batch of the fetcher *)

Module FetcherFacts.

Lemma lstrip_all (space p : ascii -> bool) (s : string) :
  Text.all_chars p s = true -> Text.all_chars p (Text.lstrip space s) = true.
Proof.
  induction s as [|c r IH]; simpl; [auto|].
  intros H; destruct (space c); [|exact H].
  apply andb_true_iff in H as [_ H]; apply IH, H.
Qed.

Lemma rstrip_all (space p : ascii -> bool) (s : string) :
  Text.all_chars p s = true -> Text.all_chars p (Text.rstrip space s) = true.
Proof.
  induction s as [|c r IH]; simpl; [auto|].
  intros H; apply andb_true_iff in H as [Hc Hr].
  destruct (space c && _); [reflexivity|].
  simpl; rewrite Hc, (IH Hr); reflexivity.
Qed.

Lemma lower_all (s : string) :
  Text.all_chars (fun c => negb (Text.is_upper c)) (Text.lower s) = true.
Proof.
  induction s as [|c r IH]; simpl; [reflexivity|].
  rewrite TextFacts.lower_char_not_upper, IH; reflexivity.
Qed.

Lemma lower_lstrip (s : string) :
  Text.lstrip Text.py_space (Text.lower s) =
  Text.lower (Text.lstrip Text.py_space s).
Proof.
  induction s as [|c r IH]; simpl; [reflexivity|].
  rewrite TextFacts.lower_char_space.
  destruct (Text.py_space c); [exact IH | reflexivity].
Qed.

Lemma lower_is_empty (s : string) :
  Text.is_empty (Text.lower s) = Text.is_empty s.
Proof. destruct s; reflexivity. Qed.

Lemma lower_rstrip (s : string) :
  Text.rstrip Text.py_space (Text.lower s) =
  Text.lower (Text.rstrip Text.py_space s).
Proof.
  induction s as [|c r IH]; simpl; [reflexivity|].
  rewrite TextFacts.lower_char_space, IH, lower_is_empty.
  destruct (Text.py_space c && _); reflexivity.
Qed.

Lemma lower_strip (s : string) :
  Text.strip (Text.lower s) = Text.lower (Text.strip s).
Proof.
  unfold Text.strip, Text.strip_with.
  rewrite lower_lstrip, lower_rstrip; reflexivity.
Qed.

(** A character an address slug can hold. *)
Definition url_char (c : ascii) : bool :=
  negb (Ascii.eqb c " " || Ascii.eqb c "," || Text.is_upper c).

Lemma city_slug_chars (s : string) :
  Text.all_chars (fun c => negb (Text.is_upper c)) s = true ->
  Text.all_chars url_char
    (Text.delete_char "," (Text.replace_char " " "-" s)) = true.
Proof.
  unfold Text.delete_char, Text.replace_char.
  induction s as [|c r IH]; simpl; [reflexivity|].
  intros H; apply andb_true_iff in H as [Hc Hr]; specialize (IH Hr).
  destruct (Ascii.eqb_spec c " ") as [->|Hsp]; simpl; [exact IH|].
  destruct (Ascii.eqb_spec c ",") as [->|Hco]; simpl; [exact IH|].
  rewrite IH, andb_true_r. unfold url_char.
  apply Ascii.eqb_neq in Hsp, Hco; rewrite Hsp, Hco.
  simpl; exact Hc.
Qed.

(** X13.  The city part of a dealers address holds no space, no comma and
    no upper-case letter, and depends neither on the case of the city name
    nor on white space around it: names equal once lower-cased and stripped
    are fetched at the same address. *)
Theorem city_slug_normal (brand city : string) :
  Text.all_chars url_char (Fetcher.city_slug city) = true /\
  Fetcher.city_slug (Text.lower city) = Fetcher.city_slug city /\
  Fetcher.city_slug (Text.strip city) = Fetcher.city_slug city /\
  (forall other,
     Text.strip (Text.lower other) = Text.strip (Text.lower city) ->
     Fetcher.dealers_url brand other = Fetcher.dealers_url brand city).
Proof.
  unfold Fetcher.dealers_url, Fetcher.city_slug. split; [|split; [|split]].
  - apply city_slug_chars.
    apply rstrip_all, lstrip_all, lower_all.
  - rewrite TextFacts.lower_twice; reflexivity.
  - rewrite (lower_strip (Text.strip city)).
    assert (E : Text.strip (Text.strip city) = Text.strip city)
      by apply TextFacts.strip_twice.
    rewrite E, <- lower_strip; reflexivity.
  - intros other ->; reflexivity.
Qed.

(** The fetch of every city of the list in turn, the first at navigation
    [nav]. *)
Fixpoint fetch_each (web : Browser.site) (brand : string) (nav : nat)
    (cities : list string) : list (string * list Script.Candidate) :=
  match cities with
  | [] => []
  | city :: rest =>
      (city, Fetcher.get_dealers web nav brand city)
      :: fetch_each web brand (S nav) rest
  end.

Definition found_some (item : string * list Script.Candidate) : bool :=
  Fetcher.truthy (snd item).

Lemma dict_set_new {V} (k : string) (v : V) (d : Fetcher.dict V) :
  ~ In k (Fetcher.keys d) -> Fetcher.dict_set k v d = d ++ [(k, v)].
Proof.
  induction d as [|[k0 v0] rest IH]; simpl; [reflexivity|].
  intros H. destruct (String.eqb_spec k0 k) as [->|Hne]; [tauto|].
  rewrite IH; [reflexivity | tauto].
Qed.

Lemma fetch_each_keys web brand nav cities :
  map fst (fetch_each web brand nav cities) = cities.
Proof.
  revert nav; induction cities as [|c r IH]; intros nav; simpl;
    [reflexivity | rewrite IH; reflexivity].
Qed.

Lemma batch_loop_in_order web brand (cities : list string) :
  forall nav results,
    NoDup cities ->
    (forall city, In city cities -> ~ In city (Fetcher.keys results)) ->
    Fetcher.batch_loop web brand cities nav results =
    results ++ filter found_some (fetch_each web brand nav cities).
Proof.
  induction cities as [|c r IH]; intros nav results Hnd Hnew; simpl.
  - symmetry; apply app_nil_r.
  - inversion Hnd as [|? ? Hc Hr]; subst.
    unfold found_some at 1; cbn [snd].
    destruct (Fetcher.truthy (Fetcher.get_dealers web nav brand c)) eqn:E.
    + rewrite dict_set_new by (apply Hnew; left; reflexivity).
      rewrite IH; [rewrite <- app_assoc; reflexivity | exact Hr |].
      intros city Hin Hk. unfold Fetcher.keys in Hk.
      rewrite map_app in Hk; apply in_app_iff in Hk as [Hk | [Hk | []]].
      * apply (Hnew city); [right; exact Hin | exact Hk].
      * simpl in Hk; subst city; contradiction.
    + apply IH; [exact Hr|].
      intros city Hin; apply Hnew; right; exact Hin.
Qed.

(** X14.  For a list of distinct cities, [get_dealers_batch] returns the
    fetches that found dealers, each with its city, in the order of the
    list. *)
Theorem get_dealers_batch_in_order (web : Browser.site) (nav : nat)
    (brand : string) (cities : list string) :
  NoDup cities ->
  Fetcher.get_dealers_batch web nav brand cities =
  filter found_some (fetch_each web brand nav cities).
Proof.
  intros Hnd; unfold Fetcher.get_dealers_batch.
  rewrite batch_loop_in_order; [reflexivity | exact Hnd |].
  intros city _ [].
Qed.

(** Pune, Delhi and Agra on a site that only knows Pune and Agra. *)
Definition pune_and_agra : Browser.site :=
  fun _ url =>
    if String.eqb url (Fetcher.dealers_url "bmw" "Pune")
       || String.eqb url (Fetcher.dealers_url "bmw" "Agra")
    then Browser.Document [Script.named_card "ABCD Motors"]
    else Browser.EvaluateRaises.

Lemma get_dealers_batch_in_order_witness :
  NoDup ["Pune"; "Delhi"; "Agra"] /\
  Fetcher.keys
    (Fetcher.get_dealers_batch pune_and_agra 0 "bmw"
       ["Pune"; "Delhi"; "Agra"]) = ["Pune"; "Agra"].
Proof.
  assert (Hnd : NoDup ["Pune"; "Delhi"; "Agra"]).
  { repeat constructor; simpl; intros H;
      repeat (destruct H as [H | H]; [discriminate H|]); exact H. }
  split; [exact Hnd|].
  rewrite (get_dealers_batch_in_order pune_and_agra 0 "bmw"
             ["Pune"; "Delhi"; "Agra"] Hnd).
  reflexivity.
Defined.

End FetcherFacts.

(** ** What a run keeps and what it counts *)

Module RunFacts.
Import Exceptions.
Import Orchestrator.




Lemma filter_split_length {A} (p : A -> bool) (l : list A) :
  List.length (filter p l) + List.length (filter (fun x => negb (p x)) l) =
  List.length l.
Proof.
  induction l as [|x l IH]; simpl; [reflexivity|].
  destruct (p x); simpl; lia.
Qed.

Section Counting.
Variable web : Browser.site.
Variable clock : nat -> string.
Variable cached_cities : nat -> list string.
Variable cities_response : nat -> Cities.http_result.
Variable repr_future : exception -> string.
Variable validate_data : bool.

(** The dictionaries the batch of a brand holds. *)
Definition batch_size (brand : string) (locations : list string) (run : Run)
  : nat :=
  List.length
    (batch_pairs (Fetcher.get_dealers_batch web (time run) brand locations)).

Lemma via_api_aggregated (brand vehicle_type : string)
    (locations : list string) (run : Run) :
  let recs :=
    records_from clock (time run + List.length locations) vehicle_type brand
      (batch_pairs
         (Fetcher.get_dealers_batch web (time run) brand locations)) in
  let '(after, total) :=
    aggregated validate_data recs
      (advance (List.length locations) run, 0) in
  _scrape_brand_via_api web clock validate_data brand vehicle_type locations
    run = (total, add_successful_scrapes total after).
Proof.
  cbv zeta; unfold _scrape_brand_via_api.
  rewrite fold_add_city; cbn [fst advance time].
  destruct (aggregated _ _ _) as [after total]; reflexivity.
Qed.

(** X15.  [_scrape_brand_via_api] counts every dictionary of the batch once:
    the records it appends are as many as the number it returns and adds to
    [successful_scrapes], and that number plus what it adds to
    [invalid_data] is the number of dictionaries the batch holds. *)
Theorem via_api_counts_every_record (brand vehicle_type : string)
    (locations : list string) (run : Run) :
  let total :=
    fst (_scrape_brand_via_api web clock validate_data brand vehicle_type
           locations run) in
  let after :=
    snd (_scrape_brand_via_api web clock validate_data brand vehicle_type
           locations run) in
  List.length (dealers_data after) = List.length (dealers_data run) + total /\
  Stats.successful_scrapes (stats after) =
    Stats.successful_scrapes (stats run) + total /\
  Stats.successful_scrapes (stats after) + Stats.invalid_data (stats after) =
    Stats.successful_scrapes (stats run) + Stats.invalid_data (stats run) +
    batch_size brand locations run /\
  time after =
    time run + List.length locations + batch_size brand locations run.
Proof.
  cbv zeta.
  pose proof (via_api_aggregated brand vehicle_type locations run) as H.
  cbv zeta in H. unfold batch_size.
  set (pairs :=
         batch_pairs
           (Fetcher.get_dealers_batch web (time run) brand locations)) in *.
  set (recs :=
         records_from clock (time run + List.length locations) vehicle_type
           brand pairs) in *.
  assert (Hl : List.length recs = List.length pairs)
    by apply records_from_length.
  pose proof (filter_split_length (kept validate_data) recs) as Hs.
  destruct run as [dd fs st [ta ss fc inv re] t].
  unfold aggregated, advance, add_invalid_data in H; cbn in H.
  rewrite H; cbn. rewrite length_app.
  unfold dropped. repeat split; lia.
Qed.








End Counting.

End RunFacts.

(** ** [scrape_all], [_scrape_location] and the reruns of the decorator *)

Module Control.
Import Exceptions.
Import Orchestrator.

Definition set_status (s : ScraperStatus) (run : Run) : Run :=
  mkRun (dealers_data run) (failed_scrapes run) s (stats run) (time run).

(** [self.stats['failed_scrapes'] += n] *)
Definition add_failed_scrapes (n : nat) (run : Run) : Run :=
  let s := stats run in
  mkRun (dealers_data run) (failed_scrapes run) (status run)
    (Stats.make (Stats.total_attempts s) (Stats.successful_scrapes s)
       (Stats.failed_scrapes s + n) (Stats.invalid_data s) (Stats.retries s))
    (time run).

(** [isinstance(e, ScraperException)]: the class and its five subclasses. *)
Definition is_scraper_exception (e : exception) : bool :=
  match e with
  | ScraperException _ | NetworkException _ | ParseException _
  | RateLimitException _ | ConfigurationException _
  | DataValidationException _ => true
  | _ => false
  end.

(** What can go wrong with the browser during [scrape_all]. *)
Record browser := mkBrowser {
  (** [async_playwright()] raises on entry *)
  start_error : option exception;
  (** [chromium.launch] raises, with this text *)
  launch_error : option string;
  (** [browser.new_context] raises, with this text *)
  context_error : option string;
  (** the text of the error raised by reading the unbound local [context] *)
  unbound_message : string;
  (** [context.new_page()] raises *)
  page_error : option exception;
  (** [context.close()] or [browser.close()] raises *)
  close_error : option exception
}.

Section ScrapeAll.
Variable clock : nat -> string.
Variable repr_future : exception -> string.
Variable scrape_brand :
  string -> string -> string -> locations_setting -> Run ->
  outcome unit * Run.

(** The three [except] clauses of [scrape_all]: what is raised for [e]. *)
Definition reraised (e : exception) : exception :=
  if is_scraper_exception e then e
  else ScraperException ("Scraper failed: " ++ str repr_future e)%string.

Definition failed_with (e : exception) (run : Run) : outcome unit * Run :=
  (Raised (reraised e), set_status FAILED run).

(** The loop over [self.config['vehicle_types'].items()]. *)
Definition scrape_vehicle_types
    (vehicle_types : list (string * vehicle_config)) (run : Run) : Run :=
  fold_left
    (fun run item =>
       vehicle_type_loop clock repr_future scrape_brand (fst item)
         (snd item) run)
    vehicle_types run.

(** [scrape_all].  [launch_browser] and [create_context] turn what they
    catch into [NetworkException]; when [create_context] raises, the
    [finally] block reads [context] before it is bound, and that error takes
    the place of the exception. *)
Definition scrape_all (b : browser)
    (vehicle_types : list (string * vehicle_config)) (run : Run)
  : outcome unit * Run :=
  let run := set_status RUNNING run in
  match start_error b with
  | Some e => failed_with e run
  | None =>
      match launch_error b with
      | Some m =>
          failed_with
            (NetworkException ("Failed to launch browser: " ++ m)%string) run
      | None =>
          match context_error b with
          | Some m => failed_with (OtherException (unbound_message b)) run
          | None =>
              match page_error b with
              | Some e =>
                  match close_error b with
                  | Some e' => failed_with e' run
                  | None => failed_with e run
                  end
              | None =>
                  let run := scrape_vehicle_types vehicle_types run in
                  let run := set_status COMPLETED run in
                  match close_error b with
                  | Some e' => failed_with e' run
                  | None => (Returned tt, run)
                  end
              end
          end
      end
  end.

Lemma reraised_scraper (e : exception) :
  is_scraper_exception (reraised e) = true.
Proof.
  unfold reraised.
  destruct (is_scraper_exception e) eqn:E; [exact E | reflexivity].
Qed.

(** X17.  [scrape_all] ends in one of two ways: it returns with the status
    COMPLETED, or it raises an exception of the class [ScraperException]
    (itself or a subclass) with the status FAILED.  A failure to create the
    browser context is not reported as such: the error of the unbound
    [context] in the [finally] block is what gets wrapped. *)
Theorem scrape_all_ends (b : browser)
    (vehicle_types : list (string * vehicle_config)) (run : Run) :
  match scrape_all b vehicle_types run with
  | (Returned _, after) =>
      status after = COMPLETED /\
      after = set_status COMPLETED
                (scrape_vehicle_types vehicle_types
                   (set_status RUNNING run))
  | (Raised e, after) =>
      status after = FAILED /\ is_scraper_exception e = true
  end /\
  (forall m,
     start_error b = None -> launch_error b = None ->
     context_error b = Some m ->
     fst (scrape_all b vehicle_types run) =
     Raised (ScraperException
               ("Scraper failed: " ++ unbound_message b)%string)).
Proof.
  unfold scrape_all, failed_with. split.
  - destruct (start_error b); [split; [reflexivity|apply reraised_scraper]|].
    destruct (launch_error b); [split; [reflexivity|apply reraised_scraper]|].
    destruct (context_error b);
      [split; [reflexivity|apply reraised_scraper]|].
    destruct (page_error b), (close_error b);
      try (split; [reflexivity|apply reraised_scraper]).
    split; reflexivity.
  - intros m -> -> ->; reflexivity.
Qed.

End ScrapeAll.

(** A browser whose context cannot be created. *)
Lemma scrape_all_ends_witness :
  let b :=
    mkBrowser None None (Some "Target closed")
      "cannot access local variable 'context'" None None in
  fst (scrape_all (fun _ => EmptyString) (fun _ => EmptyString)
         bmw_times_out b [] init) =
  Raised (ScraperException
            "Scraper failed: cannot access local variable 'context'").
Proof.
  cbv zeta.
  apply (proj2 (scrape_all_ends (fun _ => EmptyString)
                  (fun _ => EmptyString) bmw_times_out
                  (mkBrowser None None (Some "Target closed")
                     "cannot access local variable 'context'" None None)
                  [] init) "Target closed"); reflexivity.
Defined.

(** *** [_scrape_location] *)

Section ScrapeLocation.
Variable clock : nat -> string.
Variable validate_data : bool.

(** The body of the loop over the extracted dealers, on the scraper and
    [valid_count]. *)
Definition sift (acc : Run * nat) (dealer : Dealer.DealerData) : Run * nat :=
  let '(run, valid_count) := acc in
  if kept validate_data dealer
  then (append_dealer dealer run, valid_count + 1)
  else (add_invalid_data 1 run, valid_count).

(** [_scrape_location].  [goto_error] is what [page.goto] raises, if it
    raises; [page] is the page [extract_dealers] then reads. *)
Definition _scrape_location (goto_error : option exception)
    (page : Browser.response)
    (vehicle_type brand location location_url : string) (run : Run)
  : outcome unit * Run :=
  let run := advance 1 run in
  match goto_error with
  | Some e =>
      let run := add_failed_scrapes 1 run in
      match e with
      | NetworkException _ => (Raised e, run)
      | _ => (Returned tt, run)
      end
  | None =>
      let dealers :=
        Extractor.extract_dealers (fun k => clock (time run + k)) page
          vehicle_type brand location location_url in
      let run := advance (List.length dealers) run in
      if negb (Fetcher.truthy dealers) then (Returned tt, run)
      else
        let '(run, valid_count) := fold_left sift dealers (run, 0) in
        (Returned tt, add_successful_scrapes valid_count run)
  end.

Lemma fold_sift (dealers : list Dealer.DealerData) :
  forall dd fs st ta ss fc inv re t n,
    fold_left sift dealers
      (mkRun dd fs st (Stats.make ta ss fc inv re) t, n) =
    (mkRun (dd ++ filter (kept validate_data) dealers) fs st
       (Stats.make ta ss fc
          (inv + List.length (filter (dropped validate_data) dealers)) re)
       t,
     n + List.length (filter (kept validate_data) dealers)).
Proof.
  induction dealers as [|d rest IH]; intros; cbn [fold_left filter].
  - apply acc_eq; [symmetry; apply app_nil_r | cbn; lia | reflexivity
                  | cbn; lia].
  - unfold sift at 2, dropped.
    destruct (kept validate_data d) eqn:E; cbn [negb];
      unfold append_dealer, add_invalid_data; cbn -[filter];
      rewrite IH; unfold dropped;
      apply acc_eq; cbn; try lia; try reflexivity.
    rewrite <- app_assoc; reflexivity.
Qed.

Lemma fold_sift_run (dealers : list Dealer.DealerData) (run : Run)
    (n : nat) :
  fold_left sift dealers (run, n) =
  (mkRun (dealers_data run ++ filter (kept validate_data) dealers)
     (failed_scrapes run) (status run)
     (Stats.make (Stats.total_attempts (stats run))
        (Stats.successful_scrapes (stats run))
        (Stats.failed_scrapes (stats run))
        (Stats.invalid_data (stats run) +
         List.length (filter (dropped validate_data) dealers))
        (Stats.retries (stats run)))
     (time run),
   n + List.length (filter (kept validate_data) dealers)).
Proof. destruct run as [dd fs st [ta ss fc inv re] t]; apply fold_sift. Qed.

(** X18.  [_scrape_location] raises only a [NetworkException] that
    [page.goto] raised; any other exception of the navigation, a timeout of
    the browser included, is swallowed.  In both cases the navigation is
    counted in [failed_scrapes] and no dealer is added.  When the navigation
    succeeds, the extracted dealers go through the same test as in the
    batch path and are counted in the same way. *)
Theorem scrape_location_outcomes (goto_error : option exception)
    (page : Browser.response)
    (vehicle_type brand location location_url : string) (run : Run) :
  let o :=
    fst (_scrape_location goto_error page vehicle_type brand location
           location_url run) in
  let after :=
    snd (_scrape_location goto_error page vehicle_type brand location
           location_url run) in
  (forall e,
     goto_error = Some e ->
     o = match e with
         | NetworkException _ => Raised e
         | _ => Returned tt
         end /\
     dealers_data after = dealers_data run /\
     Stats.failed_scrapes (stats after) =
       Stats.failed_scrapes (stats run) + 1) /\
  (goto_error = None ->
   let dealers :=
     Extractor.extract_dealers (fun k => clock (time run + 1 + k)) page
       vehicle_type brand location location_url in
   o = Returned tt /\
   dealers_data after =
     dealers_data run ++ filter (kept validate_data) dealers /\
   Stats.successful_scrapes (stats after) =
     Stats.successful_scrapes (stats run) +
     List.length (filter (kept validate_data) dealers) /\
   Stats.invalid_data (stats after) =
     Stats.invalid_data (stats run) +
     List.length (filter (dropped validate_data) dealers) /\
   Stats.failed_scrapes (stats after) = Stats.failed_scrapes (stats run)) /\
  (forall e, o = Raised e ->
     goto_error = Some e /\ exists m, e = NetworkException m).
Proof.
  cbv zeta; unfold _scrape_location.
  destruct goto_error as [e|].
  - split; [|split; [intros H; discriminate H|]].
    + intros e' H; injection H as <-.
      destruct e; cbn; repeat split.
    + intros e'; destruct e; cbn; intros H; try discriminate H.
      injection H as <-; split; [reflexivity | eexists; reflexivity].
  - split; [intros e H; discriminate H|].
    change (time (advance 1 run)) with (time run + 1).
    set (dealers :=
           Extractor.extract_dealers (fun k => clock (time run + 1 + k)) page
             vehicle_type brand location location_url).
    split.
    + intros _. destruct dealers as [|d ds] eqn:Ed.
      * cbn. repeat split; try lia. symmetry; apply app_nil_r.
      * cbn [Fetcher.truthy negb]. rewrite fold_sift_run.
        cbn -[filter]. repeat split.
    + intros e. destruct dealers as [|d ds].
      * cbn; intros H; discriminate H.
      * cbn [Fetcher.truthy negb]. rewrite fold_sift_run.
        cbn -[filter]; intros H; discriminate H.
Qed.

End ScrapeLocation.

(** A navigation that times out in the browser: nothing is raised. *)
Lemma scrape_location_outcomes_witness :
  let timeout := PlaywrightTimeout "Timeout 15000ms exceeded." in
  let r :=
    _scrape_location (fun _ => EmptyString) true (Some timeout)
      Browser.GotoRaises "cars" "bmw" "Pune"
      "https://www.zigwheels.com/dealers/bmw/pune" init in
  fst r = Returned tt /\
  Stats.failed_scrapes (stats (snd r)) = 1.
Proof.
  cbv zeta.
  pose proof (scrape_location_outcomes (fun _ => EmptyString) true
                (Some (PlaywrightTimeout "Timeout 15000ms exceeded."))
                Browser.GotoRaises "cars" "bmw" "Pune"
                "https://www.zigwheels.com/dealers/bmw/pune" init) as H.
  cbv zeta in H. destruct H as [H _].
  destruct (H _ eq_refl) as [Ho [_ Hf]].
  split; [exact Ho | exact Hf].
Defined.

(** *** The attempts of the decorator *)

Section Reruns.
Variable body : Run -> outcome unit * Run.

(** The scraper after [n] runs of the body in a row. *)
Fixpoint rerun (n : nat) (run : Run) : Run :=
  match n with
  | 0 => run
  | S n' => rerun n' (snd (body run))
  end.

Lemma retry_loop_reruns (left : nat) : forall n run,
  let r := retry_loop body left n run in
  final r = rerun (List.length (attempts r)) run /\
  (forall i o,
     nth_error (attempts r) i = Some o -> o = fst (body (rerun i run))).
Proof.
  induction left as [|left IH]; intros n run; cbv zeta;
    rewrite retry_loop_step;
    destruct (body run) as [[v|e] run'] eqn:Eb.
  1, 3: split; [cbn; rewrite Eb; reflexivity|];
        intros [|i] o H; cbn in H; [|destruct i; discriminate H];
        injection H as <-; cbn; rewrite Eb; reflexivity.
  - assert (Hone : forall res : outcome unit,
               final (mkRetried res run' [Raised e] []) =
                 rerun (List.length (attempts
                   (mkRetried res run' [Raised e] []))) run /\
               (forall i o,
                  nth_error (attempts (mkRetried res run' [Raised e] [])) i
                  = Some o -> o = fst (body (rerun i run)))).
    { intros res; split; [cbn; rewrite Eb; reflexivity|].
      intros [|i] o H; cbn in H; [|destruct i; discriminate H].
      injection H as <-; cbn; rewrite Eb; reflexivity. }
    destruct (negb _); [apply Hone|].
    destruct (stop_after_attempt 3 n); apply Hone.
  - assert (Hone : forall res : outcome unit,
               final (mkRetried res run' [Raised e] []) =
                 rerun (List.length (attempts
                   (mkRetried res run' [Raised e] []))) run /\
               (forall i o,
                  nth_error (attempts (mkRetried res run' [Raised e] [])) i
                  = Some o -> o = fst (body (rerun i run)))).
    { intros res; split; [cbn; rewrite Eb; reflexivity|].
      intros [|i] o H; cbn in H; [|destruct i; discriminate H].
      injection H as <-; cbn; rewrite Eb; reflexivity. }
    destruct (negb _); [apply Hone|].
    destruct (stop_after_attempt 3 n); [apply Hone|].
    specialize (IH (S n) run'); cbv zeta in IH; destruct IH as [IH1 IH2].
    cbn [final attempts List.length rerun]. rewrite Eb; cbn [snd].
    split; [exact IH1|].
    intros [|i] o H; cbn in H.
    + injection H as <-; cbn; rewrite Eb; reflexivity.
    + cbn [rerun]; rewrite Eb; cbn [snd]. apply IH2, H.
Qed.

(** X19.  The decorator undoes nothing between attempts: each attempt runs
    the body on the scraper the attempt before left, so the scraper after a
    decorated call is the one after as many runs of the body in a row as
    there were attempts; and a body that returns at once makes the
    decorated call the same as the plain one. *)
Theorem retry_reruns (run : Run) :
  let r := retry body run in
  final r = rerun (List.length (attempts r)) run /\
  (forall i o,
     nth_error (attempts r) i = Some o -> o = fst (body (rerun i run))) /\
  (forall value,
     fst (body run) = Returned value ->
     result r = Returned value /\ final r = snd (body run) /\
     waited r = []).
Proof.
  cbv zeta; unfold retry.
  destruct (retry_loop_reruns 3 1 run) as [H1 H2].
  split; [exact H1|]. split; [exact H2|].
  intros value Hv. rewrite retry_loop_step.
  destruct (body run) as [o run']; cbn [fst snd] in *; subst o.
  repeat split.
Qed.

End Reruns.

(** A body that adds one to [invalid_data] and then times out, as for the
    brand [bmw]: after the decorated call the counter stands at three. *)
Definition counts_then_times_out (run : Run) : outcome unit * Run :=
  (Raised (PlaywrightTimeout "Timeout 15000ms exceeded."),
   add_invalid_data 1 run).

Lemma retry_reruns_witness :
  let r := retry counts_then_times_out init in
  List.length (attempts r) = 3 /\
  Stats.invalid_data (stats (final r)) = 3.
Proof.
  cbv zeta. split; [reflexivity|].
  rewrite (proj1 (retry_reruns counts_then_times_out init)).
  reflexivity.
Defined.

End Control.

(** ** The saved city lists of [core/city_discoverer.py] *)

Module CityFiles.

(** *** The order of strings *)

Lemma compare_as_OT (a b : string) :
  String.compare a b = OrdersEx.String_as_OT.compare a b.
Proof.
  revert b; induction a as [|x a IH]; intros [|y b]; simpl;
    try reflexivity;
    rewrite IH; unfold OrdersEx.Ascii_as_OT.compare, Ascii.compare;
    destruct (N.compare _ _); reflexivity.
Qed.

Lemma leb_iff (a b : string) :
  String.leb a b = true <-> a = b \/ OrdersEx.String_as_OT.lt a b.
Proof.
  unfold String.leb; rewrite compare_as_OT.
  destruct (OrdersEx.String_as_OT.compare_spec a b) as [H|H|H]; split;
    try discriminate; auto.
  intros [-> | H'].
  - exfalso; apply (StrictOrder_Irreflexive b), H.
  - exfalso; apply (StrictOrder_Irreflexive a).
    apply (StrictOrder_Transitive _ _ _ H' H).
Qed.

Lemma leb_trans (a b c : string) :
  String.leb a b = true -> String.leb b c = true -> String.leb a c = true.
Proof.
  rewrite !leb_iff; intros [-> | H1] [-> | H2]; auto.
  right; apply (StrictOrder_Transitive _ _ _ H1 H2).
Qed.

Definition ordered (l : list string) : Prop :=
  StronglySorted (fun a b => String.leb a b = true) l.

Lemma sorted_ordered (l : list string) : ordered (Cities.sorted l).
Proof.
  unfold ordered, Cities.sorted.
  pose proof (Cities.StringSort.StronglySorted_sort l) as H.
  apply H. intros a b c Hab Hbc.
  unfold is_true, Cities.StringOrder.leb in *.
  apply (leb_trans a b c Hab Hbc).
Qed.

Lemma ordered_same (a : list string) : forall b,
  ordered a -> ordered b -> Permutation a b -> a = b.
Proof.
  unfold ordered; induction a as [|x a IH]; intros b Ha Hb Hp.
  - apply Permutation_nil in Hp; subst b; reflexivity.
  - destruct b as [|y b];
      [apply Permutation_sym, Permutation_nil in Hp; discriminate|].
    inversion Ha as [|? ? Ha' Hx]; inversion Hb as [|? ? Hb' Hy]; subst.
    assert (Exy : x = y).
    { assert (Hin1 : In x (y :: b))
        by (apply (Permutation_in _ Hp); left; reflexivity).
      assert (Hin2 : In y (x :: a))
        by (apply (Permutation_in _ (Permutation_sym Hp)); left;
            reflexivity).
      destruct Hin1 as [E | Hin1]; [symmetry; exact E|].
      destruct Hin2 as [E | Hin2]; [exact E|].
      rewrite Forall_forall in Hx, Hy.
      apply String.leb_antisym; [apply Hx, Hin2 | apply Hy, Hin1]. }
    subst y; f_equal.
    apply IH; [exact Ha' | exact Hb' |].
    apply (Permutation_cons_inv Hp).
Qed.

Lemma sorted_fixed (l : list string) : ordered l -> Cities.sorted l = l.
Proof.
  intros H; apply ordered_same; [apply sorted_ordered | exact H |].
  apply Permutation_sym, Cities.StringSort.Permuted_sort.
Qed.

Lemma ordered_last (l : list string) (x d : string) :
  ordered l -> In x l -> String.leb x (last l d) = true.
Proof.
  unfold ordered; induction l as [|y l IH]; intros Hs Hin; [destruct Hin|].
  inversion Hs as [|? ? Hs' Hy]; subst.
  destruct l as [|z l].
  - destruct Hin as [-> | []]; simpl.
    destruct (String.leb_total x x); assumption.
  - change (last (y :: z :: l) d) with (last (z :: l) d).
    destruct Hin as [-> | Hin]; [|apply IH; assumption].
    rewrite Forall_forall in Hy; apply Hy.
    clear; revert z; induction l as [|w l IHl]; intros z;
      [left; reflexivity|].
    change (last (z :: w :: l) d) with (last (w :: l) d).
    right; apply IHl.
Qed.

(** The greatest name of a list is the last one after sorting. *)
Lemma latest_is_greatest (names : list string) (x d : string) :
  In x names ->
  (forall y, In y names -> String.leb y x = true) ->
  last (Cities.sorted names) d = x.
Proof.
  intros Hin Hmax.
  pose proof (Cities.StringSort.Permuted_sort names) as Hp.
  fold (Cities.sorted names) in Hp.
  assert (Hx : In x (Cities.sorted names))
    by (apply (Permutation_in _ Hp), Hin).
  pose proof (ordered_last _ x d (sorted_ordered names) Hx) as H1.
  assert (Hl : In (last (Cities.sorted names) d) names).
  { apply (Permutation_in _ (Permutation_sym Hp)).
    destruct (Cities.sorted names) as [|y l]; [destruct Hx|].
    clear; revert y; induction l as [|z l IH]; intros y;
      [left; reflexivity|].
    change (last (y :: z :: l) d) with (last (z :: l) d).
    right; apply IH. }
  apply String.leb_antisym; [apply Hmax, Hl | exact H1].
Qed.

(** *** The files *)

(** A file of the output directory, as the loader reads it. *)
Inductive content :=
| Snapshot (cities : list string)  (** an object whose [cities] is this *)
| NoCities                         (** an object without the key [cities] *)
| Unreadable.                      (** opening or parsing raises *)

(** The files of the directory [output], by name. *)
Definition output_dir := Fetcher.dict content.

Fixpoint ends_with (suffix s : string) : bool :=
  String.eqb suffix s ||
  match s with
  | EmptyString => false
  | String _ r => ends_with suffix r
  end.

(** A name matched by the pattern [cities_*.json]. *)
Definition is_cities_file (name : string) : bool :=
  String.prefix "cities_" name && ends_with ".json" name.

(** [output_dir.glob("cities_*.json")] *)
Definition glob_cities (d : output_dir) : list string :=
  filter is_cities_file (Fetcher.keys d).

(** [load_cities_from_file()], called without a path. *)
Definition load_cities_from_file (d : output_dir) : list string :=
  let cities_files := glob_cities d in
  if negb (Fetcher.truthy cities_files) then []
  else
    let file_path := last (Cities.sorted cities_files) EmptyString in
    match Fetcher.dict_get file_path d with
    | Some (Snapshot cities) => cities
    | _ => []
    end.

Definition cities_file_name (timestamp : string) : string :=
  ("cities_" ++ timestamp ++ ".json")%string.

(** [_save_discovered_cities]; [write_fails] when making the directory or
    writing the file raises, which the function catches. *)
Definition _save_discovered_cities (timestamp : string) (write_fails : bool)
    (cities_list : list string) (d : output_dir)
  : option string * output_dir :=
  if write_fails then (None, d)
  else
    (Some ("output/" ++ cities_file_name timestamp)%string,
     Fetcher.dict_set (cities_file_name timestamp)
       (Snapshot (Cities.sorted cities_list)) d).

(** [discover_all_cities] with the file it saves. *)
Definition discover_and_save (r : Cities.http_result) (timestamp : string)
    (write_fails : bool) (d : output_dir) : list string * output_dir :=
  let cities_data := Cities._fetch_cities_json r in
  if negb (Fetcher.truthy cities_data) then ([], d)
  else
    let cities_list :=
      Cities.sorted (Cities.set (Cities.values cities_data)) in
    (cities_list,
     snd (_save_discovered_cities timestamp write_fails cities_list d)).

Lemma ends_with_app (suffix pre : string) :
  ends_with suffix (pre ++ suffix) = true.
Proof.
  induction pre as [|c pre IH]; simpl.
  - destruct suffix; simpl; rewrite ?Ascii.eqb_refl, ?String.eqb_refl;
      reflexivity.
  - rewrite IH; apply orb_true_r.
Qed.

Lemma cities_file_name_matches (timestamp : string) :
  is_cities_file (cities_file_name timestamp) = true.
Proof.
  unfold is_cities_file, cities_file_name.
  apply andb_true_iff; split.
  - apply Location.prefix_iff; eexists; reflexivity.
  - change ("cities_" ++ timestamp ++ ".json")%string
      with ("cities_" ++ (timestamp ++ ".json"))%string.
    cbn [String.append ends_with String.eqb Ascii.eqb Bool.eqb orb].
    apply ends_with_app.
Qed.

Lemma leb_refl (a : string) : String.leb a a = true.
Proof. destruct (String.leb_total a a); assumption. Qed.

(** X20.  [load_cities_from_file] reads one file only, the one whose name
    is the greatest among those matching [cities_*.json]: it returns the
    cities of that file, and the empty list when that file has no [cities]
    or cannot be read, whatever the older files hold. *)
Theorem load_reads_latest (d : output_dir) (name : string) :
  In name (glob_cities d) ->
  (forall other, In other (glob_cities d) -> String.leb other name = true) ->
  load_cities_from_file d =
  match Fetcher.dict_get name d with
  | Some (Snapshot cities) => cities
  | _ => []
  end.
Proof.
  intros Hin Hmax; unfold load_cities_from_file.
  rewrite (latest_is_greatest (glob_cities d) name EmptyString Hin Hmax).
  destruct (glob_cities d); [destruct Hin | reflexivity].
Qed.

Definition two_snapshots : output_dir :=
  [("cities_20240101_000000.json", Snapshot ["Agra"; "Pune"]);
   ("cities_20240202_000000.json", Unreadable);
   ("zigwheels_dealers_20240303_000000.json", NoCities)].

(** An older file that can be read and a newer one that cannot. *)
Lemma load_reads_latest_witness :
  In "cities_20240202_000000.json" (glob_cities two_snapshots) /\
  load_cities_from_file two_snapshots = [].
Proof.
  assert (Hin : In "cities_20240202_000000.json" (glob_cities two_snapshots))
    by (right; left; reflexivity).
  split; [exact Hin|].
  rewrite (load_reads_latest two_snapshots "cities_20240202_000000.json"
             Hin).
  - reflexivity.
  - intros other [<- | [<- | []]]; reflexivity.
Defined.

Lemma discover_and_save_result (r : Cities.http_result) (timestamp : string)
    (write_fails : bool) (d : output_dir) :
  fst (discover_and_save r timestamp write_fails d) =
  Cities.discover_all_cities r.
Proof.
  unfold discover_and_save, Cities.discover_all_cities.
  destruct (Fetcher.truthy (Cities._fetch_cities_json r)); reflexivity.
Qed.

(** X21.  What a discovery saves is what the next load returns: when the
    fetch gave entries, the file was written and no matching file has a
    greater name, [load_cities_from_file] returns the very list
    [discover_all_cities] returned. *)
Theorem saved_cities_load_back (r : Cities.http_result) (timestamp : string)
    (d : output_dir) :
  Cities._fetch_cities_json r <> [] ->
  (forall other,
     In other (glob_cities d) ->
     String.leb other (cities_file_name timestamp) = true) ->
  load_cities_from_file (snd (discover_and_save r timestamp false d)) =
  Cities.discover_all_cities r.
Proof.
  intros Hdata Hmax.
  rewrite <- (discover_and_save_result r timestamp false d).
  unfold discover_and_save.
  destruct (Cities._fetch_cities_json r) as [|c cs] eqn:E; [congruence|].
  cbn [Fetcher.truthy negb fst snd _save_discovered_cities].
  set (l := Cities.sorted (Cities.set (Cities.values (c :: cs)))).
  set (name := cities_file_name timestamp) in *.
  set (d' := Fetcher.dict_set name (Snapshot (Cities.sorted l)) d).
  assert (Hin : In name (glob_cities d')).
  { apply filter_In; split; [|apply cities_file_name_matches].
    apply Fetcher.dict_set_keys; left; reflexivity. }
  rewrite (load_reads_latest d' name Hin).
  - unfold d'; rewrite SaverFacts.dict_get_set_same.
    apply sorted_fixed, sorted_ordered.
  - intros other Ho. apply filter_In in Ho as [Hk Hm].
    apply Fetcher.dict_set_keys in Hk as [-> | Hk]; [apply leb_refl|].
    apply Hmax, filter_In; split; assumption.
Qed.

(** A discovery of Pune and Agra saved beside an older file. *)
Lemma saved_cities_load_back_witness :
  let r :=
    Cities.JsonArray [ [("value", "Pune")]; [("value", "Agra")] ] in
  let d := [("cities_20240101_000000.json", Snapshot ["Old"])] in
  load_cities_from_file (snd (discover_and_save r "20240202_000000" false d))
  = ["Agra"; "Pune"].
Proof.
  cbv zeta.
  rewrite (saved_cities_load_back
             (Cities.JsonArray [ [("value", "Pune")]; [("value", "Agra")] ])
             "20240202_000000"
             [("cities_20240101_000000.json", Snapshot ["Old"])]).
  - reflexivity.
  - discriminate.
  - intros other [<- | []]; reflexivity.
Defined.

End CityFiles.

(** ** [validate_dealer_data] and [to_dict] *)

Module Validators.

(** [DealerData.to_dict]: the fields in the order of the class. *)
Definition to_dict (d : Dealer.DealerData) : Fetcher.dict string :=
  [("vehicle_type", Dealer.vehicle_type d); ("brand", Dealer.brand d);
   ("location", Dealer.location d); ("dealer_name", Dealer.dealer_name d);
   ("address", Dealer.address d); ("phone", Dealer.phone d);
   ("email", Dealer.email d); ("city", Dealer.city d);
   ("state", Dealer.state d); ("pincode", Dealer.pincode d);
   ("dealer_code", Dealer.dealer_code d);
   ("scraped_at", Dealer.scraped_at d); ("source_url", Dealer.source_url d)].

Definition required_fields : list string :=
  ["dealer_name"; "vehicle_type"; "brand"; "location"].

(** [field not in dealer_dict or not dealer_dict[field]] *)
Definition missing (dealer_dict : Fetcher.dict string) (field : string)
  : bool :=
  match Fetcher.dict_get field dealer_dict with
  | Some value => Text.is_empty value
  | None => true
  end.

(** The loop of [validate_dealer_data] over the fields that remain. *)
Fixpoint check_fields (dealer_dict : Fetcher.dict string)
    (fields : list string) (errors : list string) : list string :=
  match fields with
  | [] => errors
  | field :: rest =>
      check_fields dealer_dict rest
        (Dealer.append_if (missing dealer_dict field)
           ("Missing required field: " ++ field)%string errors)
  end.

(** [validate_dealer_data] *)
Definition validate_dealer_data (dealer_dict : Fetcher.dict string)
  : bool * list string :=
  let errors := check_fields dealer_dict required_fields [] in
  (Nat.eqb (List.length errors) 0, errors).

Lemma check_fields_length (dealer_dict : Fetcher.dict string)
    (fields : list string) : forall errors,
  List.length (check_fields dealer_dict fields errors) =
  List.length errors + List.length (filter (missing dealer_dict) fields).
Proof.
  induction fields as [|f rest IH]; intros errors; simpl; [lia|].
  rewrite IH. unfold Dealer.append_if.
  destruct (missing dealer_dict f); simpl; [rewrite length_app; simpl|]; lia.
Qed.

(** X22.  [validate_dealer_data] gives one error for each of the four
    required fields that is absent or empty, and accepts when there is
    none.  On the dictionary of a record it accepts exactly when the name,
    the vehicle type, the brand and the location are all non-empty; such a
    record also passes [is_valid] as soon as its name has two characters. *)
Theorem validate_dealer_data_fields (dealer_dict : Fetcher.dict string)
    (d : Dealer.DealerData) :
  List.length (snd (validate_dealer_data dealer_dict)) =
    List.length (filter (missing dealer_dict) required_fields) /\
  (fst (validate_dealer_data dealer_dict) = true <->
   forall field, In field required_fields ->
                 missing dealer_dict field = false) /\
  (fst (validate_dealer_data (to_dict d)) = true <->
   Dealer.dealer_name d <> EmptyString /\
   Dealer.vehicle_type d <> EmptyString /\
   Dealer.brand d <> EmptyString /\
   Dealer.location d <> EmptyString) /\
  (fst (validate_dealer_data (to_dict d)) = true ->
   2 <= String.length (Dealer.dealer_name d) ->
   fst (Dealer.is_valid d) = true).
Proof.
  assert (Hlen : forall dd,
             List.length (snd (validate_dealer_data dd)) =
             List.length (filter (missing dd) required_fields)).
  { intros dd; unfold validate_dealer_data; cbn [snd].
    rewrite check_fields_length; reflexivity. }
  assert (Hiff : forall dd,
             fst (validate_dealer_data dd) = true <->
             forall field, In field required_fields ->
                           missing dd field = false).
  { intros dd. specialize (Hlen dd).
    unfold validate_dealer_data in *; cbn [fst snd] in *.
    rewrite Hlen. split.
    - intros H field Hin.
      destruct (missing dd field) eqn:E; [|reflexivity].
      assert (Hf : In field (filter (missing dd) required_fields))
        by (apply filter_In; auto).
      destruct (filter (missing dd) required_fields);
        [destruct Hf | discriminate H].
    - intros H.
      assert (E : filter (missing dd) required_fields = []).
      { destruct (filter (missing dd) required_fields) as [|f l] eqn:E;
          [reflexivity|].
        assert (Hf : In f (filter (missing dd) required_fields))
          by (rewrite E; left; reflexivity).
        apply filter_In in Hf as [Hin Hm].
        rewrite (H f Hin) in Hm; discriminate Hm. }
      rewrite E; reflexivity. }
  assert (Hrec : fst (validate_dealer_data (to_dict d)) = true <->
                 Dealer.dealer_name d <> EmptyString /\
                 Dealer.vehicle_type d <> EmptyString /\
                 Dealer.brand d <> EmptyString /\
                 Dealer.location d <> EmptyString).
  { rewrite Hiff; unfold required_fields, missing, to_dict; split.
    - intros H.
      pose proof (H "dealer_name" ltac:(simpl; auto)) as H1.
      pose proof (H "vehicle_type" ltac:(simpl; auto)) as H2.
      pose proof (H "brand" ltac:(simpl; auto)) as H3.
      pose proof (H "location" ltac:(simpl; auto 6)) as H4.
      cbn in H1, H2, H3, H4.
      repeat split; apply Text.is_empty_false; assumption.
    - intros [H1 [H2 [H3 H4]]] field Hin.
      apply Text.is_empty_false in H1, H2, H3, H4.
      destruct Hin as [<- | [<- | [<- | [<- | []]]]]; cbn; assumption. }
  split; [apply Hlen|]. split; [apply Hiff|]. split; [exact Hrec|].
  intros Hv Hl. apply Hrec in Hv as [Hn [_ [_ Hloc]]].
  apply Dealer.is_valid_true; split; [split; assumption|].
  right; right; exact Hloc.
Qed.

Lemma validate_dealer_data_fields_witness :
  let d :=
    Dealer.new "2024-01-01 00:00:00" "cars" "bmw" "Pune" "AB Motors"
      EmptyString EmptyString EmptyString EmptyString EmptyString
      EmptyString EmptyString in
  fst (validate_dealer_data (to_dict d)) = true /\
  fst (Dealer.is_valid d) = true.
Proof.
  cbv zeta. split; [reflexivity|].
  apply (proj2 (proj2 (proj2 (validate_dealer_data_fields [] _))));
    [reflexivity | vm_compute; lia].
Defined.

End Validators.

(** ** The records [extract_dealers] builds *)

Module ExtractorFacts.

Section Kept.
Variable p : ascii -> bool.

(** A cleaned field holds only characters the value held. *)
Lemma clean_field_all (value : string) :
  Text.all_chars p value = true ->
  Text.all_chars p (Dealer.clean_field value) = true.
Proof.
  intros H; unfold Dealer.clean_field.
  destruct (Text.mem value _); [reflexivity|].
  apply FetcherFacts.rstrip_all, FetcherFacts.lstrip_all, H.
Qed.

Hypothesis no_space : forall c, p c = true -> Text.py_space c = false.

Lemma rstrip_same (s : string) :
  Text.all_chars p s = true -> Text.rstrip Text.py_space s = s.
Proof.
  induction s as [|c r IH]; simpl; [reflexivity|].
  intros H; apply andb_true_iff in H as [Hc Hr].
  rewrite (no_space c Hc), (IH Hr); reflexivity.
Qed.

Lemma strip_same (s : string) :
  Text.all_chars p s = true -> Text.strip s = s.
Proof.
  intros H; unfold Text.strip, Text.strip_with.
  rewrite TextFacts.lstrip_fixed; [apply rstrip_same, H|].
  destruct s as [|c r]; [exact I|].
  simpl in H; apply andb_true_iff in H as [Hc _]; apply no_space, Hc.
Qed.

Hypothesis no_N : p "N" = false.
Hypothesis no_n : p "n" = false.

(** A value made of such characters is none of the three markers, so
    cleaning the field leaves it as it is. *)
Lemma clean_field_same (value : string) :
  Text.all_chars p value = true -> Dealer.clean_field value = value.
Proof.
  intros H; unfold Dealer.clean_field.
  destruct (Text.mem value ["N/A"; "NA"; "n/a"]) eqn:E;
    [|apply strip_same, H].
  unfold Text.mem in E; apply existsb_exists in E as [x [Hin Hx]].
  apply String.eqb_eq in Hx; subst x.
  destruct Hin as [<- | [<- | [<- | []]]]; simpl in H;
    rewrite ?no_N, ?no_n in H; discriminate H.
Qed.

End Kept.

Lemma digit_no_space (c : ascii) :
  Text.is_digit c = true -> Text.py_space c = false.
Proof.
  destruct c as [[] [] [] [] [] [] [] []]; vm_compute; congruence.
Qed.

Lemma phone_char_no_space (c : ascii) :
  Cleaning.phone_char c = true -> Text.py_space c = false.
Proof.
  destruct c as [[] [] [] [] [] [] [] []]; vm_compute; congruence.
Qed.

Lemma has_char_all (c : ascii) (s : string) :
  Text.has_char c s = false <->
  Text.all_chars (fun d => negb (Ascii.eqb c d)) s = true.
Proof.
  induction s as [|d r IH]; simpl; [tauto|].
  rewrite orb_false_iff, andb_true_iff, negb_true_iff, IH; tauto.
Qed.

(** The entry [first_contained] returns is one of the list, or nothing. *)
Lemma first_contained_listed (names : list string) (address : string) :
  In (Location.first_contained names address) (EmptyString :: names).
Proof.
  induction names as [|s rest IH]; simpl; [left; reflexivity|].
  destruct (Text.contains s address); [right; left; reflexivity|].
  destruct IH as [H | H]; [left; exact H | right; right; exact H].
Qed.

(** No entry of the two lists is changed by the cleaning of a field. *)
Lemma listed_names_clean (name : string) :
  In name (EmptyString :: Location.cities ++ Location.states) ->
  Dealer.clean_field name = name.
Proof.
  intros H.
  assert (E : forallb (fun s => String.eqb (Dealer.clean_field s) s)
                (EmptyString :: Location.cities ++ Location.states) = true)
    by (vm_compute; reflexivity).
  rewrite forallb_forall in E. apply String.eqb_eq, E, H.
Qed.

(** What [re.search] finds is six digits, when it finds something. *)
Lemma re_search_pincode_digits (address pincode : string) :
  Location.re_search_pincode address = Some pincode ->
  String.length pincode = 6 /\ Text.all_chars Text.is_digit pincode = true.
Proof.
  intros H. pose proof (Location.re_search_pincode_spec address) as S.
  rewrite H in S.
  destruct S as [[pre [post [[_ [Hl [Hd _]]] _]]] | [-> _]].
  - split; assumption.
  - exfalso.
    unfold Location.re_search_pincode in H.
    pose proof (Location.search_pincode_spec address None) as S.
    rewrite H in S. destruct S as [pre [post [Hocc _]]].
    apply Location.occurs_from_start in Hocc.
    destruct Hocc as [_ [Hl _]]; discriminate Hl.
Qed.

(** A pincode: nothing, or six digits. *)
Definition pincode_shape (s : string) : Prop :=
  s = EmptyString \/
  String.length s = 6 /\ Text.all_chars Text.is_digit s = true.

(** What holds of every record [extract_dealers] returns. *)
Definition extracted (vehicle_type brand location source_url : string)
    (d : Dealer.DealerData) : Prop :=
  Dealer.vehicle_type d = vehicle_type /\ Dealer.brand d = brand /\
  Dealer.location d = location /\ Dealer.source_url d = source_url /\
  pincode_shape (Dealer.pincode d) /\
  In (Dealer.city d) (EmptyString :: Location.cities) /\
  In (Dealer.state d) (EmptyString :: Location.states) /\
  Text.all_chars Cleaning.phone_char (Dealer.phone d) = true /\
  Text.has_char Cleaning.newline (Dealer.dealer_name d) = false.

Lemma parse_location_parts (address city state pincode : string) :
  Location._parse_location address = (city, state, pincode) ->
  In city (EmptyString :: Location.cities) /\
  In state (EmptyString :: Location.states) /\
  pincode_shape pincode.
Proof.
  unfold Location._parse_location.
  destruct (Text.is_empty address).
  - intros H; injection H as <- <- <-.
    split; [left; reflexivity|]. split; left; reflexivity.
  - intros H; injection H as <- <- <-.
    split; [exact (first_contained_listed Location.cities address)|].
    split; [exact (first_contained_listed Location.states address)|].
    destruct (Location.re_search_pincode address) as [p|] eqn:E;
      [right; apply (re_search_pincode_digits address p E) | left; reflexivity].
Qed.

Lemma build_dealers_extracted (clock : nat -> string)
    (vehicle_type brand location source_url : string)
    (raw_dealers : list Script.Candidate) : forall k d,
  In d (Extractor.build_dealers clock vehicle_type brand location source_url
          k raw_dealers) ->
  extracted vehicle_type brand location source_url d.
Proof.
  induction raw_dealers as [|raw rest IH]; intros k d; simpl; [intros []|].
  destruct (Text.is_empty (Script.dealer_name raw)); [apply IH|].
  destruct (Location._parse_location (Script.address raw))
    as [[city state] pincode] eqn:E.
  intros [<- | H]; [|apply (IH _ _ H)].
  apply parse_location_parts in E as [Hc [Hs Hp]].
  unfold extracted; cbn.
  repeat split.
  - destruct Hp as [-> | [Hl Hd]]; [left; reflexivity|].
    rewrite (clean_field_same Text.is_digit digit_no_space
               eq_refl eq_refl pincode Hd).
    right; split; assumption.
  - rewrite listed_names_clean; [exact Hc|].
    destruct Hc as [<- | Hc]; [left; reflexivity|].
    right; apply in_or_app; left; exact Hc.
  - rewrite listed_names_clean; [exact Hs|].
    destruct Hs as [<- | Hs]; [left; reflexivity|].
    right; apply in_or_app; right; exact Hs.
  - apply clean_field_all. rewrite Cleaning.clean_phone_filter.
    apply Cleaning.filter_chars_all.
  - apply has_char_all, clean_field_all, has_char_all.
    unfold Cleaning._clean_name.
    destruct (Text.is_empty _); [reflexivity|].
    apply CleaningFacts.before_char_free.
Qed.

(** X23.  Every record [extract_dealers] returns carries the vehicle type,
    the brand, the location and the address of the page it was called with;
    its pincode is empty or six digits, its city and its state are empty or
    entries of the two lists, its phone holds only digits, plus and minus
    signs, and its name holds no newline.  The cleaning the record does on
    its own changes none of this. *)
Theorem extracted_record_fields (clock : nat -> string)
    (page : Browser.response)
    (vehicle_type brand location source_url : string)
    (d : Dealer.DealerData) :
  In d (Extractor.extract_dealers clock page vehicle_type brand location
          source_url) ->
  extracted vehicle_type brand location source_url d.
Proof.
  unfold Extractor.extract_dealers.
  destruct page as [| |cards]; try (intros []).
  apply build_dealers_extracted.
Qed.

(** A page with one card, whose first paragraph is an address of
    Bangalore. *)
Definition bangalore_card : Script.Card :=
  Script.mkCard (Some "Navnit Motors")
    ["12 MG Road, Bangalore, Karnataka 560001"] None
    (Some "+91 80-1234 5678") None false.

Lemma extracted_record_fields_witness :
  exists d,
    Extractor.extract_dealers (fun _ => "2024-01-01 00:00:00")
      (Browser.Document [bangalore_card]) "cars" "bmw" "Bangalore"
      "https://www.zigwheels.com/dealers/bmw/bangalore" = [d] /\
    Dealer.pincode d = "560001" /\ Dealer.city d = "Bangalore" /\
    Dealer.phone d = "+9180-12345678" /\
    extracted "cars" "bmw" "Bangalore"
      "https://www.zigwheels.com/dealers/bmw/bangalore" d.
Proof.
  eexists; split; [vm_compute; reflexivity|].
  split; [reflexivity|]. split; [reflexivity|]. split; [reflexivity|].
  apply (extracted_record_fields (fun _ => "2024-01-01 00:00:00")
           (Browser.Document [bangalore_card])).
  vm_compute; left; reflexivity.
Defined.

End ExtractorFacts.

(** ** The records of the batch path *)

Module BatchRecords.
Import Orchestrator.

Lemma batch_pairs_city (dealers_by_city : Fetcher.dict (list Script.Candidate))
    (city : string) (dealer_dict : Script.Candidate) :
  In (city, dealer_dict) (batch_pairs dealers_by_city) ->
  In city (Fetcher.keys dealers_by_city).
Proof.
  unfold batch_pairs, Fetcher.keys; intros H.
  apply in_flat_map in H as [[c dealers] [Hitem Hd]].
  apply in_map_iff in Hd as [x [Hx _]]; injection Hx as <- _.
  apply in_map_iff; exists (c, dealers); split; [reflexivity | exact Hitem].
Qed.

Lemma batch_city_listed (web : Browser.site) (nav : nat) (brand : string)
    (cities : list string) (city : string) :
  In city (Fetcher.keys (Fetcher.get_dealers_batch web nav brand cities)) ->
  In city cities.
Proof.
  unfold Fetcher.get_dealers_batch; intros H.
  apply Fetcher.batch_loop_keys in H as [[] | [dealers [_ [i [Hi _]]]]].
  apply (nth_error_In _ _ Hi).
Qed.

Section Records.
Variable clock : nat -> string.
Variable validate_data : bool.

Lemma records_from_origin (vehicle_type brand : string)
    (pairs : list (string * Script.Candidate)) : forall t d,
  In d (records_from clock t vehicle_type brand pairs) ->
  exists t' city dealer_dict,
    In (city, dealer_dict) pairs /\
    d = to_dealer clock t' vehicle_type brand city dealer_dict.
Proof.
  induction pairs as [|[city dealer_dict] rest IH]; intros t d; simpl;
    [intros []|].
  intros [<- | H].
  - exists t, city, dealer_dict; split; [left|]; reflexivity.
  - apply IH in H as [t' [c [dd [Hin Hd]]]].
    exists t', c, dd; split; [right; exact Hin | exact Hd].
Qed.

Lemma kept_valid (dealer : Dealer.DealerData) :
  kept validate_data dealer = true -> validate_data = true ->
  fst (Dealer.is_valid dealer) = true.
Proof.
  unfold kept; destruct (Dealer.is_valid dealer) as [is_valid errors].
  intros H ->; simpl in *. rewrite orb_false_r in H; exact H.
Qed.

(** X24.  The records [_scrape_brand_via_api] appends are as many as the
    number it returns; each carries the vehicle type and the brand of the
    call and, as location, a city of the list it was given; its city, state,
    pincode and source address are empty, the batch path filling none of
    them; and when [validate_data] is set, each passes [is_valid]. *)
Theorem via_api_records (web : Browser.site) (brand vehicle_type : string)
    (locations : list string) (run : Run) :
  let result :=
    _scrape_brand_via_api web clock validate_data brand vehicle_type
      locations run in
  exists added,
    dealers_data (snd result) = dealers_data run ++ added /\
    List.length added = fst result /\
    forall d, In d added ->
      Dealer.vehicle_type d = vehicle_type /\ Dealer.brand d = brand /\
      In (Dealer.location d) locations /\
      Dealer.city d = EmptyString /\ Dealer.state d = EmptyString /\
      Dealer.pincode d = EmptyString /\ Dealer.source_url d = EmptyString /\
      (validate_data = true -> fst (Dealer.is_valid d) = true).
Proof.
  cbv zeta.
  pose proof (RunFacts.via_api_aggregated web clock validate_data brand
                vehicle_type locations run) as H.
  cbv zeta in H.
  set (pairs :=
         batch_pairs
           (Fetcher.get_dealers_batch web (time run) brand locations)) in *.
  set (recs :=
         records_from clock (time run + List.length locations) vehicle_type
           brand pairs) in *.
  unfold aggregated in H; cbn [advance dealers_data] in H.
  rewrite H; cbn [fst snd].
  exists (filter (kept validate_data) recs).
  split; [reflexivity|]. split; [reflexivity|].
  intros d Hd; apply filter_In in Hd as [Hin Hkept].
  apply records_from_origin in Hin as [t' [city [dealer_dict [Hp ->]]]].
  split; [reflexivity|]. split; [reflexivity|].
  split.
  - apply batch_pairs_city in Hp.
    apply (batch_city_listed web (time run) brand locations city Hp).
  - repeat (split; [reflexivity|]).
    apply kept_valid, Hkept.
Qed.

End Records.

End BatchRecords.

(** ** [core/dealer_discoverer.py] *)

Module Discoverer.

(** [get_dealer_page_url]: the brand goes into the template as it is, the
    city with its spaces turned into hyphens and its commas removed. *)
Definition get_dealer_page_url (brand city : string) : string :=
  let city_slug := Text.delete_char "," (Text.replace_char " " "-" city) in
  ("https://www.zigwheels.com/dealers/" ++ brand ++ "/" ++ city_slug)%string.

(** [_find_latest_cities_file] *)
Definition _find_latest_cities_file (d : CityFiles.output_dir)
  : option string :=
  let cities_files := Cities.sorted (CityFiles.glob_cities d) in
  if Fetcher.truthy cities_files then Some (last cities_files EmptyString)
  else None.

(** [_load_cities]: the latest saved file when there is one, the request
    otherwise; every exception gives the empty list. *)
Definition _load_cities (d : CityFiles.output_dir) (r : Cities.http_result)
  : list string :=
  match _find_latest_cities_file d with
  | Some cities_file =>
      match Fetcher.dict_get cities_file d with
      | Some (CityFiles.Snapshot cities) => cities
      | _ => []
      end
  | None =>
      match r with
      | Cities.JsonArray cities_data =>
          Cities.sorted (Cities.set (Cities.values cities_data))
      | _ => []
      end
  end.

(** [get_dealer_urls_to_scrape] *)
Definition get_dealer_urls_to_scrape (brand : string) (cities : list string)
    (d : CityFiles.output_dir) (r : Cities.http_result) : list string :=
  let cities := if Fetcher.truthy cities then cities else _load_cities d r in
  if negb (Fetcher.truthy cities) then []
  else map (get_dealer_page_url brand) cities.


(** X25.  For a brand and cities already in lower case and without white
    space around them, the addresses [get_dealer_urls_to_scrape] generates
    are, in the order of the cities, the addresses the fetcher navigates to
    for the same brand and cities. *)
Theorem dealer_urls_are_fetched (brand : string) (cities : list string)
    (d : CityFiles.output_dir) (r : Cities.http_result) :
  cities <> [] ->
  Text.strip (Text.lower brand) = brand ->
  (forall city, In city cities -> Text.strip (Text.lower city) = city) ->
  get_dealer_urls_to_scrape brand cities d r =
  map (Fetcher.dealers_url brand) cities.
Proof.
  intros Hne Hb Hc; unfold get_dealer_urls_to_scrape.
  destruct cities as [|c rest]; [congruence|].
  cbn [Fetcher.truthy negb].
  apply map_ext_in; intros city Hin.
  unfold get_dealer_page_url, Fetcher.dealers_url, Fetcher.brand_slug,
    Fetcher.city_slug.
  rewrite Hb, (Hc city Hin); reflexivity.
Qed.

Lemma dealer_urls_are_fetched_witness :
  get_dealer_urls_to_scrape "bmw" ["pune"; "new delhi"] [] Cities.HttpError =
  ["https://www.zigwheels.com/dealers/bmw/pune";
   "https://www.zigwheels.com/dealers/bmw/new-delhi"].
Proof.
  rewrite (dealer_urls_are_fetched "bmw" ["pune"; "new delhi"] []
             Cities.HttpError).
  - reflexivity.
  - discriminate.
  - reflexivity.
  - intros city [<- | [<- | []]]; reflexivity.
Defined.


End Discoverer.
